(** * The Fisher F-test helper of [08_fitting.ipynb]

    The notebook defines one function of its own,

<<
    def Ftest(ssr_1, ssr_2, ndof_1, ndof_2, nbins, verbose=False):
        F = ((ssr_1 - ssr_2)/(ndof_2 - ndof_1)) / (ssr_2/(nbins - ndof_2))
        CL = 1. - stats.f.cdf(F, ndof_2 - ndof_1, nbins - ndof_2)
        if verbose: print("CL: %.3f" % CL, ", additional parameter necessary:", "YES" if CL < 0.10 else "NO")
        return CL
>>

    and calls it with residual sums produced by [np.sum] (numpy [float64]
    scalars) and with Python [int] degrees of freedom.

    Numbers.  A float is an IEEE 754 binary64 number, a [spec_float] of
    the Standard Library with precision 53 and maximal exponent 1024, and
    the arithmetic is the library's [SFsub], [SFdiv], ...: every result is
    rounded to nearest even, underflows to a subnormal number or to a
    zero, and overflows to an infinity.  A Python [int] operand of [/] is
    converted to the nearest float, and the conversion raises
    [OverflowError] when the [int] is beyond the float range.  Everything
    else follows the two run-time types the residual sums can have: a
    division of Python [float]s by zero raises [ZeroDivisionError], a
    division involving a numpy [float64] follows IEEE 754 and returns an
    infinity or NaN (the [RuntimeWarning] numpy emits is not an exception,
    goes to the warnings machinery and is not modelled).

    Output.  Standard output is the list of lines written by [print].

    Library functions.  The distribution function [stats.f.cdf] belongs to
    scipy; it is a parameter of the model, a function that gives a float
    for every argument, and what a statement needs of it is stated as a
    premise.  So are numpy's [np.sum] and the power [**] of floats, whose
    results depend on the summation order and on the platform's [pow].

    Order.  A statement on the order of two results goes through the
    exact values: a subtraction or a division of finite numbers is the
    rounding to nearest even of the exact result, and rounding is
    monotone.  Both are proved below for the library's
    [binary_round_aux], [SFsub] and [SFdiv].

    Besides [Ftest], the file covers the residual sums handed to it and
    the functions given to the root finders and minimisers. *)

From Stdlib Require Import ZArith QArith Qabs Qround Qreduction Qpower.
From Stdlib Require Import Bool List String Ascii DecimalString Lia Lqa.
From Stdlib Require Import SpecFloat.
From Stdlib Require Import PrimFloat.
From Stdlib Require Uint63 FloatOps.
From Stdlib Require Reals Qreals Lra.
Import ListNotations.

Local Open Scope Q_scope.

(** ** Binary64 numbers *)

Definition prec : Z := 53.
Definition emax : Z := 1024.

(** The four operators of the notebook's arithmetic. *)
Definition fadd : spec_float -> spec_float -> spec_float := SFadd prec emax.
Definition fsub : spec_float -> spec_float -> spec_float := SFsub prec emax.
Definition fmul : spec_float -> spec_float -> spec_float := SFmul prec emax.
Definition fdiv : spec_float -> spec_float -> spec_float := SFdiv prec emax.

(** [x < y] and [x <= y]; false as soon as one side is NaN. *)
Definition fltb : spec_float -> spec_float -> bool := SFltb.
Definition fleb : spec_float -> spec_float -> bool := SFleb.

(** The float nearest to [m * 2^e], ties to even. *)
Definition dyadic (m e : Z) : spec_float := binary_normalize prec emax m e false.

(** The float nearest to an integer. *)
Definition float_of_int (z : Z) : spec_float := dyadic z 0.

Definition pzero : spec_float := S754_zero false.   (* +0.0 *)
Definition fone : spec_float := float_of_int 1.      (* 1.0 *)
Definition pinf : spec_float := S754_infinity false. (* +inf *)

(** The float written [0.10] in the source: 0x1.999999999999ap-4. *)
Definition tenth : spec_float := S754_finite false 7205759403792794 (-56).

(** 5e-324, the smallest positive float. *)
Definition tiny : spec_float := dyadic 1 (-1074).

(** A well-formed binary64 number: the mantissa of a finite number has 53
    bits, or fewer at the least exponent. *)
Definition binary64 (x : spec_float) : Prop := valid_binary prec emax x = true.

Definition is_zero (x : spec_float) : bool :=
  match x with S754_zero _ => true | _ => false end.

Definition is_nan (x : spec_float) : bool :=
  match x with S754_nan => true | _ => false end.

Definition is_inf (x : spec_float) : bool :=
  match x with S754_infinity _ => true | _ => false end.

Definition is_finite (x : spec_float) : bool :=
  match x with S754_finite _ _ _ => true | _ => false end.

(** The sign bit of a number; NaN is given none. *)
Definition sign_bit (x : spec_float) : bool :=
  match x with
  | S754_zero s | S754_infinity s | S754_finite s _ _ => s
  | S754_nan => false
  end.

(** A number, not NaN, with sign bit [s]. *)
Definition signed_result (s : bool) (x : spec_float) : Prop :=
  is_nan x = false /\ sign_bit x = s.

(** The rational number a finite float denotes; 0 for the others. *)
Definition B2Q (x : spec_float) : Q :=
  match x with
  | S754_finite s m e => inject_Z (cond_Zopp s (Zpos m)) * Qpower 2 e
  | _ => 0
  end.

(** ** The two float types and their operators *)

Inductive pyfloat : Type :=
| PyFloat (x : spec_float)      (* Python's built-in float *)
| NpFloat64 (x : spec_float).   (* numpy.float64 *)

Definition value (a : pyfloat) : spec_float :=
  match a with PyFloat x | NpFloat64 x => x end.

Definition is_np (a : pyfloat) : bool :=
  match a with PyFloat _ => false | NpFloat64 _ => true end.

(** The result type of a binary operator: numpy's scalar takes over as
    soon as one operand is a [float64]. *)
Definition wrap (np : bool) (x : spec_float) : pyfloat :=
  if np then NpFloat64 x else PyFloat x.

(** Python objects a function can hand back to its caller. *)
#[warnings="-register-all"]
Inductive pyobj : Type :=
| PFloat (x : pyfloat)
| PStr (s : string)
| PTuple (items : list pyobj).

(** ** Exceptions and standard output *)

Inductive exn : Type :=
| ZeroDivisionError
| OverflowError
| ValueError.

(** A computation ends with an exception or a value, and has written some
    lines to standard output. *)
Definition M (A : Type) : Type := (exn + A) * list string.

Definition ret {A} (a : A) : M A := (inr a, []).

Definition raise {A} (e : exn) : M A := (inl e, []).

Definition bind {A B} (m : M A) (f : A -> M B) : M B :=
  match m with
  | (inl e, out) => (inl e, out)
  | (inr a, out) => let (r, out') := f a in (r, out ++ out')
  end.

Notation "x <- m ;; k" := (bind m (fun x => k))
  (at level 61, m at next level, right associativity).
Notation "m ;;; k" := (bind m (fun _ => k))
  (at level 61, right associativity).

(** [a - b] never raises. *)
Definition sub (a b : pyfloat) : pyfloat :=
  wrap (is_np a || is_np b) (fsub (value a) (value b)).

(** A Python [int] operand of [/] is converted to a float first; an [int]
    that rounds beyond the largest float raises [OverflowError]. *)
Definition of_int (z : Z) : M pyfloat :=
  match float_of_int z with
  | S754_infinity _ => raise OverflowError
  | x => ret (PyFloat x)
  end.

(** [a / b] on floats: [float.__truediv__] raises on a zero divisor, numpy
    divides as IEEE 754 does. *)
Definition truediv (a b : pyfloat) : M pyfloat :=
  if is_np a || is_np b then ret (NpFloat64 (fdiv (value a) (value b)))
  else if is_zero (value b) then raise ZeroDivisionError
  else ret (PyFloat (fdiv (value a) (value b))).

(** [a / z] with an [int] divisor. *)
Definition truediv_int (a : pyfloat) (z : Z) : M pyfloat :=
  b <- of_int z ;; truediv a b.

(** ** Formatting and printing *)

Definition Qltb (p q : Q) : bool := negb (Qle_bool q p).

Definition round_half_even (q : Q) : Z :=
  let f := Qfloor q in
  let r := q - inject_Z f in
  if Qltb r (1 # 2) then f
  else if Qltb (1 # 2) r then (f + 1)%Z
  else if Z.even f then f else (f + 1)%Z.

Definition digit (z : Z) : string :=
  String (ascii_of_N (48 + Z.to_N z)) EmptyString.

Definition string_of_Z (z : Z) : string :=
  NilZero.string_of_uint (N.to_uint (Z.to_N z)).

(** ["%.3f" % x]: the exact value of the float, rounded to three decimals,
    ties to even. *)
Definition fmt3 (x : spec_float) : string :=
  match x with
  | S754_nan => "nan"
  | S754_infinity false => "inf"
  | S754_infinity true => "-inf"
  | S754_zero false => "0.000"
  | S754_zero true => "-0.000"
  | S754_finite s _ _ =>
      let m := round_half_even (Qabs (B2Q x) * 1000) in
      ((if s then "-" else "") ++
       string_of_Z (m / 1000) ++ "." ++
       digit (m / 100 mod 10) ++ digit (m / 10 mod 10) ++ digit (m mod 10))%string
  end.

(** [print(a, b, ...)] writes its arguments separated by one space, as
    one line. *)
Definition print (args : list string) : M unit :=
  (inr tt, [String.concat " " args]).

(** ** The function *)

Section Comparator.

(** [stats.f.cdf(x, dfn, dfd)] *)
Variable f_cdf : spec_float -> Z -> Z -> spec_float.

(** The value bound to the local [F]. *)
Definition Ftest_F (ssr_1 ssr_2 : pyfloat) (ndof_1 ndof_2 nbins : Z)
  : M pyfloat :=
  num <- truediv_int (sub ssr_1 ssr_2) (ndof_2 - ndof_1) ;;
  den <- truediv_int ssr_2 (nbins - ndof_2) ;;
  truediv num den.

(** The value bound to the local [CL], given [F]. *)
Definition Ftest_CL (F : pyfloat) (ndof_1 ndof_2 nbins : Z) : pyfloat :=
  sub (PyFloat fone)
      (NpFloat64 (f_cdf (value F) (ndof_2 - ndof_1) (nbins - ndof_2))).

(** The line written when [verbose] is set. *)
Definition report (CL : pyfloat) : list string :=
  [ ("CL: " ++ fmt3 (value CL))%string;
    ", additional parameter necessary:";
    if fltb (value CL) tenth then "YES" else "NO" ]%string.

Definition Ftest (ssr_1 ssr_2 : pyfloat) (ndof_1 ndof_2 nbins : Z)
  (verbose : bool) : M pyobj :=
  F <- Ftest_F ssr_1 ssr_2 ndof_1 ndof_2 nbins ;;
  let CL := Ftest_CL F ndof_1 ndof_2 nbins in
  (if verbose then print (report CL) else ret tt) ;;;
  ret (PFloat CL).

End Comparator.

(** The formula of the F statistic over the rationals. *)
Definition F_formula (s1 s2 : Q) (d1 d2 n : Z) : Q :=
  ((s1 - s2) / inject_Z (d2 - d1)) / (s2 / inject_Z (n - d2)).

(** The same expression in binary64: three roundings for the operators and
    two for the conversions of the [int] differences. *)
Definition F_statistic (s1 s2 : spec_float) (d1 d2 n : Z) : spec_float :=
  fdiv (fdiv (fsub s1 s2) (float_of_int (d2 - d1)))
       (fdiv s2 (float_of_int (n - d2))).

(** An [int] within the float range. *)
Definition fits_float (z : Z) : bool := negb (is_inf (float_of_int z)).

(** The diagnostic line for a confidence level. *)
Definition diagnostic (CL : spec_float) : string :=
  ("CL: " ++ fmt3 CL ++ " , additional parameter necessary: " ++
   (if fltb CL tenth then "YES" else "NO"))%string.

(** The expression for [F] once more, on the primitive floats of the
    kernel, which are the binary64 numbers of the machine.  The degrees of
    freedom are converted as above; the conversion is exact below 2^53,
    and the expression is left undefined beyond. *)
Definition binary64_of_int (z : Z) : option PrimFloat.float :=
  if (Z.abs z <? 2 ^ 53)%Z then
    Some (if (z <? 0)%Z
          then PrimFloat.opp (PrimFloat.of_uint63 (Uint63.of_Z (- z)))
          else PrimFloat.of_uint63 (Uint63.of_Z z))
  else None.

Definition F_binary64 (ssr_1 ssr_2 : PrimFloat.float) (ndof_1 ndof_2 nbins : Z)
  : option PrimFloat.float :=
  match binary64_of_int (ndof_2 - ndof_1), binary64_of_int (nbins - ndof_2) with
  | Some d1, Some d2 =>
      Some (PrimFloat.div (PrimFloat.div (PrimFloat.sub ssr_1 ssr_2) d1)
                          (PrimFloat.div ssr_2 d2))
  | _, _ => None
  end.

(** A distribution function to run the comparator on.  It follows scipy
    outside the open support: 0 for [x <= 0], 1 at [+inf], NaN for a NaN
    argument or a non-positive number of degrees of freedom.  Inside, it
    is [x / (x + 1)], the F distribution function for 2 and 2 degrees of
    freedom, computed in binary64. *)
Definition cdf_ratio (x : spec_float) (dfn dfd : Z) : spec_float :=
  if ((0 <? dfn)%Z && (0 <? dfd)%Z)%bool then
    match x with
    | S754_nan => S754_nan
    | S754_infinity false => fone
    | S754_finite false _ _ => fdiv x (fadd x fone)
    | _ => pzero
    end
  else S754_nan.

(** A stand-in that is a distribution function on the floats: the one of
    a point mass just above 0.  NaN for a NaN argument or a non-positive
    number of degrees of freedom, as [cdf_ratio]. *)
Definition cdf_step (x : spec_float) (dfn dfd : Z) : spec_float :=
  if ((0 <? dfn)%Z && (0 <? dfd)%Z)%bool then
    match x with
    | S754_nan => S754_nan
    | _ => if fltb pzero x then fone else pzero
    end
  else S754_nan.

(** ** What the comparator expects of the distribution function

    Each statement below is for positive degrees of freedom. *)

(** The distribution function is 0 at negative arguments, -0.0 and -inf
    included. *)
Definition cdf_zero_below (cdf : spec_float -> Z -> Z -> spec_float) : Prop :=
  forall x dfn dfd, (0 < dfn)%Z -> (0 < dfd)%Z ->
    sign_bit x = true -> cdf x dfn dfd = pzero.

(** It is 0 at +0.0. *)
Definition cdf_zero_at_zero (cdf : spec_float -> Z -> Z -> spec_float) : Prop :=
  forall dfn dfd, (0 < dfn)%Z -> (0 < dfd)%Z -> cdf pzero dfn dfd = pzero.

(** It is 1 at +inf. *)
Definition cdf_one_at_inf (cdf : spec_float -> Z -> Z -> spec_float) : Prop :=
  forall dfn dfd, (0 < dfn)%Z -> (0 < dfd)%Z -> cdf pinf dfn dfd = fone.

(** NaN in, NaN out. *)
Definition cdf_nan (cdf : spec_float -> Z -> Z -> spec_float) : Prop :=
  forall dfn dfd, cdf S754_nan dfn dfd = S754_nan.

(** The distribution function is monotone. *)
Definition cdf_monotone (cdf : spec_float -> Z -> Z -> spec_float) : Prop :=
  forall x y dfn dfd, (0 < dfn)%Z -> (0 < dfd)%Z ->
    binary64 x -> binary64 y -> fleb x y = true ->
    fleb (cdf x dfn dfd) (cdf y dfn dfd) = true.

(** Its values are well-formed numbers between 0 and 1. *)
Definition cdf_unit_interval (cdf : spec_float -> Z -> Z -> spec_float) : Prop :=
  forall x dfn dfd, (0 < dfn)%Z -> (0 < dfd)%Z -> is_nan x = false ->
    binary64 (cdf x dfn dfd) /\
    fleb pzero (cdf x dfn dfd) = true /\ fleb (cdf x dfn dfd) fone = true.

(** ** The residual sums of the last cell

<<
    y1 = f1(x, fa0, fa1)
    ssr_1 = np.sum((y1 - y)**2)
>>

    The fitted values and [y] are one-dimensional numpy arrays of
    [float64]; the subtraction works element by element. *)

Definition ndarray : Type := list spec_float.

Fixpoint zip_with (op : spec_float -> spec_float -> spec_float)
  (a b : ndarray) : ndarray :=
  match a, b with
  | ai :: a', bi :: b' => op ai bi :: zip_with op a' b'
  | _, _ => []
  end.

(** [a - b] on one-dimensional arrays: the shapes must be equal, or one of
    them must be 1 and is stretched; otherwise numpy raises [ValueError]. *)
Definition array_sub (a b : ndarray) : exn + ndarray :=
  if Nat.eqb (List.length a) (List.length b) then inr (zip_with fsub a b)
  else
    match a, b with
    | [a0], _ => inr (map (fun bi => fsub a0 bi) b)
    | _, [b0] => inr (map (fun ai => fsub ai b0) a)
    | _, _ => inl ValueError
    end.

Section ResidualSum.

(** [a ** n], element by element, and [np.sum(a)], on an array of
    [float64]. *)
Variable array_power : ndarray -> Z -> ndarray.
Variable np_sum : ndarray -> spec_float.

(** [np.sum((fit - y)**2)], a numpy float. *)
Definition ssr (fit y : ndarray) : exn + pyfloat :=
  match array_sub fit y with
  | inl e => inl e
  | inr d => inr (NpFloat64 (np_sum (array_power d 2)))
  end.

End ResidualSum.

(** ** The functions of the root-finding and minimisation cells

    Each cell binds the name [f] anew; the three definitions get a name of
    their own here. *)

(** [def f(x): return x**3 - 3*x + 1], handed to [newton] and [brentq];
    the polynomial, on exact numbers. *)
Definition f_cubic (x : Q) : Q := x ^ 3 - 3 * x + 1.

Section System.

(** [a ** n] on a [float64] scalar. *)
Variable power : spec_float -> Z -> spec_float.

(** [def f(x): return [x[1] - 3*x[0]*(x[0]+1)*(x[0]-1), .25*x[0]**2 + x[1]**2 - 1]],
    handed to [optimize.root], which calls it on an array of [float64].
    [None] stands for the [IndexError] of [x[1]] or [x[0]]. *)
Definition f_system (x : ndarray) : option (list spec_float) :=
  match nth_error x 1, nth_error x 0 with
  | Some x1, Some x0 =>
      Some [ fsub x1
               (fmul (fmul (fmul (float_of_int 3) x0) (fadd x0 (float_of_int 1)))
                     (fsub x0 (float_of_int 1)));
             fsub (fadd (fmul (dyadic 1 (-2)) (power x0 2)) (power x1 2))
                  (float_of_int 1) ]
  | _, _ => None
  end.

End System.

(** [def f(x): return x**4 + 3*(x-2)**3 - 15*(x)**2 + 1], handed to
    [optimize.minimize_scalar]; the polynomial, on exact numbers. *)
Definition f_quartic (x : Q) : Q := x ^ 4 + 3 * (x - 2) ^ 3 - 15 * x ^ 2 + 1.

(** * Rounding to nearest, as [binary_round_aux] computes it

    The definitions below name the stages of the library's rounding
    function and the real number a mantissa, an exponent and a location
    stand for; the order of two floating-point results is derived from
    the order of the numbers they are the roundings of. *)

Local Open Scope Z_scope.

(** The exponent a mantissa is shifted to. *)
Definition target (m e : Z) : Z := fexp prec emax (Zdigits2 m + e).

(** The second stage: a rounded mantissa is brought back to the
    precision, and checked against the overflow threshold. *)
Definition build (s : bool) (M e : Z) : spec_float :=
  let '(r, e') := shr_fexp prec emax M e loc_Exact in
  match shr_m r with
  | Z0 => S754_zero s
  | Zpos m => if e' <=? emax - prec then S754_finite s m e' else S754_infinity s
  | Zneg _ => S754_nan
  end.

(** The mantissa and exponent that come out of the second stage. *)
Definition renorm (M e : Z) : Z * Z :=
  if M =? 2 ^ 53 then (2 ^ 52, e + 1) else (M, e).

Local Close Scope Z_scope.

Definition bpow (e : Z) : Q := 2 ^ e.

(** [located r e v]: the number [v] lies in the interval
    [[m 2^e, (m+1) 2^e)] of the mantissa [m] of [r], at the place the
    round and sticky bits of [r] tell: at the left end, below the middle,
    in the middle, above it. *)
Definition located (r : shr_record) (e : Z) (v : Q) : Prop :=
  match shr_r r, shr_s r with
  | false, false => v == inject_Z (shr_m r) * bpow e
  | false, true =>
      inject_Z (shr_m r) * bpow e < v /\ v < (inject_Z (shr_m r) + (1 # 2)) * bpow e
  | true, false => v == (inject_Z (shr_m r) + (1 # 2)) * bpow e
  | true, true =>
      (inject_Z (shr_m r) + (1 # 2)) * bpow e < v /\
      v < (inject_Z (shr_m r) + 1) * bpow e
  end.

Local Open Scope Z_scope.

(** The conditions under which [binary_round_aux] is called: a
    non-negative mantissa whose exponent is at most the one it is shifted
    to, and a number [v] at the place the location tells. *)
Definition rounds (m e : Z) (l : location) (v : Q) : Prop :=
  0 <= m /\ e <= target m e /\ located (shr_record_of_loc m l) e v.

Local Close Scope Z_scope.

(** A number that is finite: a zero or a finite non-zero number. *)
Definition is_real (x : spec_float) : bool := is_finite x || is_zero x.

(** [rounding_of v r]: the float [r] is the rounding of [v]. *)
Definition rounding_of (v : Q) (r : spec_float) : Prop :=
  (v == 0 /\ is_zero r = true) \/
  (0 < v /\ exists m e l, rounds m e l v /\
                          r = binary_round_aux prec emax false m e l) \/
  (v < 0 /\ exists m e l, rounds m e l (- v) /\
                          r = binary_round_aux prec emax true m e l).

(** * Rounding *)

Local Open Scope Z_scope.

Lemma digits2_pos_lower (m : positive) :
  2 ^ (Zpos (digits2_pos m) - 1) <= Zpos m.
Proof.
  induction m as [m IH|m IH|]; cbn [digits2_pos].
  - rewrite Pos2Z.inj_succ.
    replace (Z.succ (Zpos (digits2_pos m)) - 1) with (Z.succ (Zpos (digits2_pos m) - 1)) by lia.
    rewrite Z.pow_succ_r by lia. lia.
  - rewrite Pos2Z.inj_succ.
    replace (Z.succ (Zpos (digits2_pos m)) - 1) with (Z.succ (Zpos (digits2_pos m) - 1)) by lia.
    rewrite Z.pow_succ_r by lia. lia.
  - reflexivity.
Qed.

Lemma digits2_pos_upper (m : positive) :
  Zpos m < 2 ^ Zpos (digits2_pos m).
Proof.
  induction m as [m IH|m IH|]; cbn [digits2_pos].
  - rewrite Pos2Z.inj_succ, Z.pow_succ_r by lia. lia.
  - rewrite Pos2Z.inj_succ, Z.pow_succ_r by lia. lia.
  - reflexivity.
Qed.

(** One step of the right shift halves the mantissa. *)
Lemma shr_1_lower (r : shr_record) (k : Z) :
  0 <= k -> 2 * k <= shr_m r -> k <= shr_m (shr_1 r).
Proof.
  intros Hk H. destruct r as [m b s]. cbn [shr_m] in H.
  destruct m as [|[q|q|]|[q|q|]]; cbn; lia.
Qed.

Lemma iter_shr_1_lower (p : positive) :
  forall (r : shr_record) (k : Z),
    0 <= k -> 2 ^ Zpos p * k <= shr_m r -> k <= shr_m (iter_pos shr_1 p r).
Proof.
  induction p as [p IH|p IH|]; intros r k Hk H; cbn [iter_pos].
  - assert (E : 2 ^ Zpos p~1 = 2 * (2 ^ Zpos p * 2 ^ Zpos p)).
    { replace (Z.pos p~1) with (1 + (Z.pos p + Z.pos p)) by lia.
      rewrite (Z.pow_add_r 2 1), (Z.pow_add_r 2 (Z.pos p)) by lia. reflexivity. }
    rewrite E in H.
    assert (P : 0 < 2 ^ Zpos p) by (apply Z.pow_pos_nonneg; lia).
    apply IH; [assumption|]. apply IH; [nia|].
    apply shr_1_lower; nia.
  - assert (E : 2 ^ Zpos p~0 = 2 ^ Zpos p * 2 ^ Zpos p).
    { replace (Z.pos p~0) with (Z.pos p + Z.pos p) by lia.
      apply Z.pow_add_r; lia. }
    rewrite E in H.
    assert (P : 0 < 2 ^ Zpos p) by (apply Z.pow_pos_nonneg; lia).
    apply IH; [assumption|]. apply IH; [nia|]. nia.
  - apply shr_1_lower; [assumption|]. exact H.
Qed.

Lemma shr_record_of_loc_m (m : Z) (l : location) :
  shr_m (shr_record_of_loc m l) = m.
Proof. destruct l as [|[| |]]; reflexivity. Qed.

(** The shift to the format's exponent keeps a mantissa non-negative. *)
Lemma shr_fexp_nonneg (m e : Z) (l : location) :
  0 <= m -> 0 <= shr_m (fst (shr_fexp prec emax m e l)).
Proof.
  intros Hm. unfold shr_fexp, shr.
  destruct (fexp prec emax (Zdigits2 m + e) - e) as [|p|p]; cbn [fst];
    rewrite ?shr_record_of_loc_m; try assumption.
  apply iter_shr_1_lower; [lia|]. rewrite shr_record_of_loc_m. lia.
Qed.

(** Above the least exponent the shift removes fewer bits than the
    mantissa has, and leaves a positive mantissa. *)
Lemma shr_fexp_pos (m : positive) (e : Z) (l : location) :
  emin prec emax <= e ->
  1 <= shr_m (fst (shr_fexp prec emax (Zpos m) e l)) /\
  emin prec emax <= snd (shr_fexp prec emax (Zpos m) e l).
Proof.
  intros He. unfold shr_fexp, shr. cbn [Zdigits2].
  destruct (fexp prec emax (Zpos (digits2_pos m) + e) - e) as [|p|p] eqn:E;
    cbn [fst snd]; rewrite ?shr_record_of_loc_m; try (split; lia).
  split; [|lia].
  apply iter_shr_1_lower; [lia|]. rewrite shr_record_of_loc_m.
  pose proof (digits2_pos_lower m) as L.
  assert (Hp : Zpos p <= Zpos (digits2_pos m) - 1).
  { unfold fexp, emin, prec, emax in E. unfold emin, prec, emax in He. lia. }
  assert (2 ^ Zpos p <= 2 ^ (Zpos (digits2_pos m) - 1))
    by (apply Z.pow_le_mono_r; lia).
  lia.
Qed.

Lemma round_nearest_even_lower (m : Z) (l : location) :
  m <= round_nearest_even m l.
Proof.
  unfold round_nearest_even. destruct l as [|[| |]]; try lia.
  destruct (Z.even m); lia.
Qed.

(** Rounding a non-negative mantissa gives a number of the sign asked
    for, never NaN. *)
Lemma binary_round_aux_sign (s : bool) (m e : Z) (l : location) :
  0 <= m -> signed_result s (binary_round_aux prec emax s m e l).
Proof.
  intros Hm. unfold binary_round_aux.
  pose proof (shr_fexp_nonneg m e l Hm) as H1.
  destruct (shr_fexp prec emax m e l) as [r1 e1]. cbn [fst] in H1.
  pose proof (round_nearest_even_lower (shr_m r1) (loc_of_shr_record r1)) as H2.
  pose proof (shr_fexp_nonneg (round_nearest_even (shr_m r1) (loc_of_shr_record r1))
                e1 loc_Exact ltac:(lia)) as H3.
  destruct (shr_fexp prec emax _ e1 loc_Exact) as [r2 e2]. cbn [fst] in H3.
  destruct (shr_m r2) as [|q|q]; [split; reflexivity| |lia].
  destruct (e2 <=? emax - prec); split; reflexivity.
Qed.

(** Above the least exponent, rounding a positive mantissa gives a
    non-zero number: a finite one or, on overflow, an infinity. *)
Lemma binary_round_aux_nonzero (s : bool) (m : positive) (e : Z) (l : location) :
  emin prec emax <= e ->
  is_zero (binary_round_aux prec emax s (Zpos m) e l) = false.
Proof.
  intros He. unfold binary_round_aux.
  destruct (shr_fexp_pos m e l He) as [H1 H1e].
  destruct (shr_fexp prec emax (Zpos m) e l) as [r1 e1]. cbn [fst snd] in H1, H1e.
  pose proof (round_nearest_even_lower (shr_m r1) (loc_of_shr_record r1)) as H2.
  destruct (round_nearest_even (shr_m r1) (loc_of_shr_record r1)) as [|q|q] eqn:E;
    try lia.
  destruct (shr_fexp_pos q e1 loc_Exact H1e) as [H3 _].
  destruct (shr_fexp prec emax (Zpos q) e1 loc_Exact) as [r2 e2]. cbn [fst] in H3.
  destruct (shr_m r2) as [|q'|q']; try lia.
  destruct (e2 <=? emax - prec); reflexivity.
Qed.

Lemma shl_align_exponent (m : positive) (e e' : Z) :
  snd (shl_align m e e') = Z.min e e'.
Proof.
  unfold shl_align. destruct (e' - e) eqn:E; cbn [snd]; lia.
Qed.

Lemma binary_round_sign (s : bool) (m : positive) (e : Z) :
  signed_result s (binary_round prec emax s m e).
Proof.
  unfold binary_round. destruct (shl_align m e _) as [mz ez].
  apply binary_round_aux_sign. lia.
Qed.

Lemma binary_round_nonzero (s : bool) (m : positive) (e : Z) :
  emin prec emax <= e -> is_zero (binary_round prec emax s m e) = false.
Proof.
  intros He. unfold binary_round.
  pose proof (shl_align_exponent m e (fexp prec emax (Zpos (digits2_pos m) + e))) as E.
  destruct (shl_align m e _) as [mz ez]. cbn [snd] in E.
  apply binary_round_aux_nonzero. subst ez.
  unfold fexp, emin, prec, emax in *. lia.
Qed.

(** ** The conversion of an [int] *)

Lemma float_of_int_not_nan (z : Z) : is_nan (float_of_int z) = false.
Proof.
  unfold float_of_int, dyadic, binary_normalize. destruct z as [|p|p];
    [reflexivity|apply binary_round_sign..].
Qed.

Lemma float_of_int_sign (z : Z) : sign_bit (float_of_int z) = (z <? 0).
Proof.
  unfold float_of_int, dyadic, binary_normalize. destruct z as [|p|p];
    [reflexivity|apply binary_round_sign..].
Qed.

Lemma float_of_int_is_zero (z : Z) : is_zero (float_of_int z) = (z =? 0).
Proof.
  unfold float_of_int, dyadic, binary_normalize. destruct z as [|p|p];
    [reflexivity| |]; apply binary_round_nonzero; unfold emin, prec, emax; lia.
Qed.

Local Close Scope Z_scope.
(** * The operators *)

Lemma SFdiv_core_binary_nonneg (m1 m2 : positive) (e1 e2 : Z) :
  (0 <= fst (fst (SFdiv_core_binary prec emax (Zpos m1) e1 (Zpos m2) e2)))%Z.
Proof.
  unfold SFdiv_core_binary.
  set (s := (e1 - e2 - _)%Z).
  set (m' := match s with Zpos _ => Z.shiftl (Zpos m1) s | Z0 => Zpos m1 | Zneg _ => 0%Z end).
  assert (Hm : (0 <= m')%Z).
  { subst m'. destruct s; [lia| |lia]. apply Z.shiftl_nonneg. lia. }
  pose proof (Z.div_pos m' (Zpos m2) Hm ltac:(lia)) as Hq.
  unfold Z.div in Hq. destruct (Z.div_eucl m' (Zpos m2)) as [q r]. exact Hq.
Qed.

(** A quotient of two finite non-zero numbers is a number (a zero when it
    underflows, an infinity when it overflows) whose sign is the product
    of the signs. *)
Lemma fdiv_finite (sx sy : bool) (mx my : positive) (ex ey : Z) :
  signed_result (xorb sx sy)
    (fdiv (S754_finite sx mx ex) (S754_finite sy my ey)).
Proof.
  unfold fdiv, SFdiv.
  pose proof (SFdiv_core_binary_nonneg mx my ex ey) as H.
  destruct (SFdiv_core_binary prec emax (Zpos mx) ex (Zpos my) ey) as [[mz ez] lz].
  cbn [fst] in H. now apply binary_round_aux_sign.
Qed.

(** When a quotient is NaN: a NaN operand, inf/inf or 0/0. *)
Lemma fdiv_nan (x y : spec_float) :
  is_nan (fdiv x y)
  = (is_nan x || is_nan y || (is_inf x && is_inf y) || (is_zero x && is_zero y))%bool.
Proof.
  destruct x as [sx|sx| |sx mx ex], y as [sy|sy| |sy my ey]; try reflexivity.
  apply fdiv_finite.
Qed.

(** The sign of a quotient. *)
Lemma fdiv_sign (x y : spec_float) :
  is_nan (fdiv x y) = false ->
  sign_bit (fdiv x y) = xorb (sign_bit x) (sign_bit y).
Proof.
  destruct x as [sx|sx| |sx mx ex], y as [sy|sy| |sy my ey];
    try reflexivity; try discriminate.
  intros _. apply fdiv_finite.
Qed.

(** A zero divisor makes the quotient an infinity or NaN. *)
Lemma fdiv_zero_divisor (x y : spec_float) :
  is_zero y = true -> (is_inf (fdiv x y) || is_nan (fdiv x y))%bool = true.
Proof. destruct x, y; try reflexivity; discriminate. Qed.

(** An infinite or NaN dividend stays infinite or NaN. *)
Lemma fdiv_inf_dividend (x y : spec_float) :
  (is_inf x || is_nan x)%bool = true ->
  (is_inf (fdiv x y) || is_nan (fdiv x y))%bool = true.
Proof. destruct x, y; try reflexivity; discriminate. Qed.

(** An infinite or NaN divisor makes the quotient a zero or NaN. *)
Lemma fdiv_inf_divisor (x y : spec_float) :
  (is_inf y || is_nan y)%bool = true ->
  (is_zero (fdiv x y) || is_nan (fdiv x y))%bool = true.
Proof. destruct x, y; try reflexivity; discriminate. Qed.

Lemma fsub_pzero_r (x : spec_float) : fsub x pzero = x.
Proof. destruct x as [[|]|[|]| |s m e]; reflexivity. Qed.

(** [x - x] is +0.0 for every finite [x]. *)
Lemma fsub_self (x : spec_float) :
  (is_finite x || is_zero x)%bool = true -> fsub x x = pzero.
Proof.
  destruct x as [[|]|[|]| |s m e]; try reflexivity; try discriminate.
  intros _. unfold fsub, SFsub. rewrite Z.min_id, Z.sub_diag. reflexivity.
Qed.

Lemma is_zero_sign (x : spec_float) :
  is_zero x = true -> x = S754_zero (sign_bit x).
Proof. destruct x; try discriminate. reflexivity. Qed.


(** ** Subtraction of ordered numbers *)

Local Open Scope Z_scope.

Lemma iter_xO_value (d m : positive) :
  Zpos (Pos.iter xO m d) = Zpos m * 2 ^ Zpos d.
Proof.
  induction d as [|d IH] using Pos.peano_ind.
  - cbn [Pos.iter]. change (2 ^ 1) with 2. lia.
  - rewrite Pos.iter_succ, Pos2Z.inj_xO, IH, Pos2Z.inj_succ, Z.pow_succ_r by lia. ring.
Qed.

Lemma shl_align_mantissa (m : positive) (e e' : Z) :
  e' <= e -> Zpos (fst (shl_align m e e')) = Zpos m * 2 ^ (e - e').
Proof.
  intros H. unfold shl_align. destruct (e' - e) as [|d|d] eqn:E; cbn [fst]; try lia.
  - replace (e - e') with 0 by lia. rewrite Z.pow_0_r. lia.
  - rewrite iter_xO_value. replace (e - e') with (Zpos d) by lia. reflexivity.
Qed.

(** What it takes for a finite number to be well formed. *)
Lemma binary64_finite (s : bool) (m : positive) (e : Z) :
  binary64 (S754_finite s m e) ->
  emin prec emax <= e /\ Zpos m < 2 ^ 53 /\
  (emin prec emax < e -> 2 ^ 52 <= Zpos m).
Proof.
  unfold binary64, valid_binary, bounded, canonical_mantissa.
  intros H. apply andb_prop in H as [H _]. apply Z.eqb_eq in H.
  pose proof (digits2_pos_lower m) as L. pose proof (digits2_pos_upper m) as U.
  unfold fexp, emin, prec, emax in *.
  assert (D : Zpos (digits2_pos m) <= 53) by lia.
  repeat split.
  - lia.
  - assert (2 ^ Zpos (digits2_pos m) <= 2 ^ 53) by (apply Z.pow_le_mono_r; lia). lia.
  - intros He. assert (E : Zpos (digits2_pos m) = 53) by lia.
    rewrite E in L. exact L.
Qed.

(** The mantissas of two well-formed positive numbers, brought to the
    smaller exponent, are ordered as the numbers are. *)
Lemma aligned_lt (mx my : positive) (ex ey : Z) :
  binary64 (S754_finite false mx ex) -> binary64 (S754_finite false my ey) ->
  fltb (S754_finite false mx ex) (S754_finite false my ey) = true ->
  Zpos (fst (shl_align mx ex (Z.min ex ey)))
  < Zpos (fst (shl_align my ey (Z.min ex ey))).
Proof.
  intros Vx Vy H.
  apply binary64_finite in Vx as (Ex & Ux & _).
  apply binary64_finite in Vy as (Ey & _ & Ly).
  rewrite !shl_align_mantissa by lia.
  unfold fltb, SFltb, SFcompare in H.
  destruct (Z.compare_spec ex ey) as [E|E|E]; try discriminate.
  - subst ey. rewrite Z.min_id, Z.sub_diag, Z.pow_0_r.
    destruct (Pos.compare_cont Eq mx my) eqn:C; try discriminate.
    assert (C' : (mx < my)%positive) by exact C. lia.
  - rewrite Z.min_l by lia. rewrite Z.sub_diag, Z.pow_0_r.
    assert (L : 2 ^ 52 <= Zpos my) by (apply Ly; lia).
    assert (P : 2 ^ 1 <= 2 ^ (ey - ex)) by (apply Z.pow_le_mono_r; lia).
    change (2 ^ 1) with 2 in P.
    assert (2 ^ 53 <= Zpos my * 2 ^ (ey - ex)).
    { change (2 ^ 53) with (2 ^ 52 * 2). apply Z.mul_le_mono_nonneg; lia. }
    lia.
Qed.

(** [x - y] for well-formed [0 <= x < y < inf] is a non-zero number with
    the sign bit set. *)
Lemma fsub_lt (x y : spec_float) :
  binary64 x -> binary64 y ->
  sign_bit x = false -> is_finite y = true ->
  fltb x y = true ->
  is_zero (fsub x y) = false /\ signed_result true (fsub x y).
Proof.
  intros Vx Vy Sx Fy H.
  destruct y as [sy|sy| |sy my ey]; try discriminate Fy.
  destruct x as [sx|sx| |sx mx ex]; cbn [sign_bit] in Sx; subst;
    try discriminate H.
  - destruct sy; [discriminate H|]. repeat split.
  - destruct sy; [discriminate H|].
    pose proof (aligned_lt mx my ex ey Vx Vy H) as L.
    unfold fsub, SFsub. cbn [cond_Zopp].
    destruct (Zpos (fst (shl_align mx ex (Z.min ex ey)))
              - Zpos (fst (shl_align my ey (Z.min ex ey)))) as [|p|p] eqn:E;
      try lia.
    cbn [binary_normalize].
    apply binary64_finite in Vx as (Ex & _). apply binary64_finite in Vy as (Ey & _).
    split; [apply binary_round_nonzero; lia|apply binary_round_sign].
Qed.

Local Close Scope Z_scope.

(** * The monad and the operators of the two float types *)

Lemma bind_ret {A B} (a : A) (f : A -> M B) : bind (ret a) f = f a.
Proof. unfold bind, ret. destruct (f a). reflexivity. Qed.

Lemma value_wrap (np : bool) (x : spec_float) : value (wrap np x) = x.
Proof. now destruct np. Qed.

Lemma of_int_fits (z : Z) :
  fits_float z = true -> of_int z = ret (PyFloat (float_of_int z)).
Proof.
  unfold fits_float, of_int. destruct (float_of_int z); try reflexivity.
  discriminate.
Qed.

Lemma of_int_overflow (z : Z) :
  fits_float z = false -> of_int z = raise OverflowError.
Proof.
  unfold fits_float, of_int. destruct (float_of_int z); try discriminate.
  reflexivity.
Qed.

Lemma truediv_nonzero (a b : pyfloat) :
  is_zero (value b) = false ->
  truediv a b = ret (wrap (is_np a || is_np b) (fdiv (value a) (value b))).
Proof.
  intros H. unfold truediv. rewrite H. now destruct (is_np a || is_np b).
Qed.

Lemma truediv_numpy (a b : pyfloat) :
  is_np a || is_np b = true ->
  truediv a b = ret (NpFloat64 (fdiv (value a) (value b))).
Proof. intros H. unfold truediv. now rewrite H. Qed.

Lemma truediv_by_zero (a b : pyfloat) :
  is_np a || is_np b = false -> is_zero (value b) = true ->
  truediv a b = raise ZeroDivisionError.
Proof. intros H Hz. unfold truediv. now rewrite H, Hz. Qed.

Lemma truediv_silent (a b : pyfloat) : snd (truediv a b) = [].
Proof.
  unfold truediv. destruct (is_np a || is_np b); [reflexivity|].
  now destruct (is_zero (value b)).
Qed.

Lemma truediv_no_value_error (a b : pyfloat) :
  fst (truediv a b) <> inl ValueError /\ fst (truediv a b) <> inl OverflowError.
Proof.
  unfold truediv. destruct (is_np a || is_np b); [split; discriminate|].
  destruct (is_zero (value b)); split; discriminate.
Qed.

Lemma truediv_int_fits (a : pyfloat) (z : Z) :
  fits_float z = true -> truediv_int a z = truediv a (PyFloat (float_of_int z)).
Proof. intros H. unfold truediv_int. now rewrite (of_int_fits z H), bind_ret. Qed.

Lemma truediv_int_overflow (a : pyfloat) (z : Z) :
  fits_float z = false -> truediv_int a z = raise OverflowError.
Proof. intros H. unfold truediv_int. now rewrite (of_int_overflow z H). Qed.

Lemma truediv_int_silent (a : pyfloat) (z : Z) : snd (truediv_int a z) = [].
Proof.
  destruct (fits_float z) eqn:E.
  - rewrite truediv_int_fits by assumption. apply truediv_silent.
  - now rewrite truediv_int_overflow.
Qed.

(** The computation of [F] writes nothing. *)
Lemma Ftest_F_silent (a b : pyfloat) (d1 d2 n : Z) : snd (Ftest_F a b d1 d2 n) = [].
Proof.
  unfold Ftest_F.
  pose proof (truediv_int_silent (sub a b) (d2 - d1)) as H1.
  destruct (truediv_int (sub a b) (d2 - d1)) as [[e|num] o1]; cbn [snd] in H1; subst o1;
    [reflexivity|].
  cbn [bind].
  pose proof (truediv_int_silent b (n - d2)) as H2.
  destruct (truediv_int b (n - d2)) as [[e|den] o2]; cbn [snd] in H2; subst o2;
    [reflexivity|].
  cbn [bind].
  pose proof (truediv_silent num den) as H3.
  destruct (truediv num den) as [r o3]. cbn [snd] in H3 |- *. now subst o3.
Qed.

(** The three divisions when each of them goes through. *)
Lemma Ftest_F_returns (a b : pyfloat) (d1 d2 n : Z) :
  fits_float (d2 - d1) = true -> fits_float (n - d2) = true ->
  (is_np a || is_np b = false -> d2 <> d1) ->
  (is_np b = false -> n <> d2) ->
  (is_np a || is_np b = false ->
   is_zero (fdiv (value b) (float_of_int (n - d2))) = false) ->
  Ftest_F a b d1 d2 n
  = ret (wrap (is_np a || is_np b) (F_statistic (value a) (value b) d1 d2 n)).
Proof.
  intros F1 F2 H1 H2 H3. unfold Ftest_F, F_statistic.
  rewrite !truediv_int_fits by assumption.
  assert (Z1 : d2 <> d1 -> is_zero (float_of_int (d2 - d1)) = false).
  { intros H. rewrite float_of_int_is_zero. apply Z.eqb_neq. lia. }
  assert (Z2 : n <> d2 -> is_zero (float_of_int (n - d2)) = false).
  { intros H. rewrite float_of_int_is_zero. apply Z.eqb_neq. lia. }
  destruct a as [x|x], b as [y|y]; cbn [is_np orb value sub wrap] in *.
  - rewrite truediv_nonzero by (apply Z1; auto). rewrite bind_ret.
    rewrite truediv_nonzero by (apply Z2; auto). rewrite bind_ret.
    cbn [is_np orb value wrap]. rewrite truediv_nonzero by (cbn [value]; auto).
    reflexivity.
  - rewrite truediv_numpy by reflexivity. rewrite bind_ret.
    rewrite truediv_numpy by reflexivity. rewrite bind_ret.
    rewrite truediv_numpy by reflexivity. reflexivity.
  - rewrite truediv_numpy by reflexivity. rewrite bind_ret.
    rewrite truediv_nonzero by (apply Z2; auto). rewrite bind_ret.
    rewrite truediv_numpy by reflexivity. reflexivity.
  - rewrite truediv_numpy by reflexivity. rewrite bind_ret.
    rewrite truediv_numpy by reflexivity. rewrite bind_ret.
    rewrite truediv_numpy by reflexivity. reflexivity.
Qed.

(** With a numpy [ssr_2] no division can raise. *)
Lemma Ftest_F_numpy (a : pyfloat) (y : spec_float) (d1 d2 n : Z) :
  fits_float (d2 - d1) = true -> fits_float (n - d2) = true ->
  Ftest_F a (NpFloat64 y) d1 d2 n
  = ret (NpFloat64 (F_statistic (value a) y d1 d2 n)).
Proof.
  intros F1 F2. unfold Ftest_F, F_statistic. rewrite !truediv_int_fits by assumption.
  rewrite truediv_numpy by (now destruct a).
  rewrite bind_ret. rewrite truediv_numpy by reflexivity. rewrite bind_ret.
  rewrite truediv_numpy by reflexivity.
  unfold sub. now rewrite value_wrap.
Qed.

(** The first division of Python floats by a zero difference. *)
Lemma Ftest_F_first_zero (x y : spec_float) (d n : Z) :
  Ftest_F (PyFloat x) (PyFloat y) d d n = raise ZeroDivisionError.
Proof.
  unfold Ftest_F. rewrite Z.sub_diag.
  rewrite truediv_int_fits by reflexivity.
  rewrite truediv_by_zero; reflexivity.
Qed.

(** The second division of a Python float by a zero difference. *)
Lemma Ftest_F_second_zero (a : pyfloat) (y : spec_float) (d1 d2 : Z) :
  fits_float (d2 - d1) = true ->
  Ftest_F a (PyFloat y) d1 d2 d2 = raise ZeroDivisionError.
Proof.
  intros F1. unfold Ftest_F. rewrite Z.sub_diag.
  rewrite truediv_int_fits by assumption.
  destruct (Z.eq_dec d2 d1) as [->|Hd].
  - rewrite Z.sub_diag in *. destruct a as [x|x].
    + rewrite truediv_by_zero; reflexivity.
    + rewrite truediv_numpy by reflexivity. rewrite bind_ret.
      rewrite truediv_int_fits by reflexivity.
      rewrite truediv_by_zero; reflexivity.
  - rewrite truediv_nonzero
      by (cbn [value]; rewrite float_of_int_is_zero; apply Z.eqb_neq; lia).
    rewrite bind_ret. rewrite truediv_int_fits by reflexivity.
    rewrite truediv_by_zero; reflexivity.
Qed.

(** The third division of Python floats by a quotient that is zero. *)
Lemma Ftest_F_third_zero (x y : spec_float) (d1 d2 n : Z) :
  fits_float (d2 - d1) = true -> fits_float (n - d2) = true ->
  is_zero (fdiv y (float_of_int (n - d2))) = true ->
  Ftest_F (PyFloat x) (PyFloat y) d1 d2 n = raise ZeroDivisionError.
Proof.
  intros F1 F2 H. unfold Ftest_F. rewrite !truediv_int_fits by assumption.
  destruct (is_zero (float_of_int (d2 - d1))) eqn:Z1.
  - rewrite truediv_by_zero; [reflexivity|reflexivity|exact Z1].
  - rewrite truediv_nonzero by exact Z1. rewrite bind_ret.
    destruct (is_zero (float_of_int (n - d2))) eqn:Z2.
    + rewrite truediv_by_zero; [reflexivity|reflexivity|exact Z2].
    + rewrite truediv_nonzero by exact Z2. rewrite bind_ret.
      rewrite truediv_by_zero; [reflexivity|reflexivity|exact H].
Qed.

Section Results.

Variable f_cdf : spec_float -> Z -> Z -> spec_float.

Lemma Ftest_returns (a b : pyfloat) (d1 d2 n : Z) (v : bool) (F : pyfloat) :
  Ftest_F a b d1 d2 n = ret F ->
  Ftest f_cdf a b d1 d2 n v
  = (inr (PFloat (NpFloat64 (fsub fone (f_cdf (value F) (d2 - d1)%Z (n - d2)%Z)))),
     if v
     then [("CL: " ++ fmt3 (fsub fone (f_cdf (value F) (d2 - d1)%Z (n - d2)%Z)) ++
            " , additional parameter necessary: " ++
            (if fltb (fsub fone (f_cdf (value F) (d2 - d1)%Z (n - d2)%Z)) tenth
             then "YES" else "NO"))%string]
     else []).
Proof.
  intros H. unfold Ftest. rewrite H, bind_ret.
  destruct v; reflexivity.
Qed.

Lemma Ftest_raises (a b : pyfloat) (d1 d2 n : Z) (v : bool) (e : exn) :
  Ftest_F a b d1 d2 n = raise e -> Ftest f_cdf a b d1 d2 n v = raise e.
Proof. intros H. unfold Ftest. now rewrite H. Qed.

End Results.

(** ** The stand-in distribution function *)

Lemma cdf_ratio_zero_below : cdf_zero_below cdf_ratio.
Proof.
  intros x dfn dfd Hn Hd Hs. unfold cdf_ratio.
  apply Z.ltb_lt in Hn, Hd. rewrite Hn, Hd.
  destruct x as [s|s| |s m e]; cbn [sign_bit] in Hs; subst; try reflexivity.
  discriminate.
Qed.

Lemma cdf_ratio_zero_at_zero : cdf_zero_at_zero cdf_ratio.
Proof.
  intros dfn dfd Hn Hd. unfold cdf_ratio.
  apply Z.ltb_lt in Hn, Hd. now rewrite Hn, Hd.
Qed.

Lemma cdf_ratio_one_at_inf : cdf_one_at_inf cdf_ratio.
Proof.
  intros dfn dfd Hn Hd. unfold cdf_ratio.
  apply Z.ltb_lt in Hn, Hd. now rewrite Hn, Hd.
Qed.

Lemma cdf_ratio_nan : cdf_nan cdf_ratio.
Proof. intros dfn dfd. unfold cdf_ratio. now destruct (_ && _)%bool. Qed.

Local Open Scope Z_scope.

(** * Shifts, digit counts and the two stages of a rounding *)

Lemma Zdigits2_nonneg (m : Z) : 0 <= Zdigits2 m.
Proof. destruct m; cbn; lia. Qed.

Lemma Zdigits2_pos (m : Z) : 0 < m -> 1 <= Zdigits2 m.
Proof. destruct m as [|p|p]; cbn; lia. Qed.

Lemma Zdigits2_lower (m : Z) : 0 < m -> 2 ^ (Zdigits2 m - 1) <= m.
Proof. destruct m as [|p|p]; try lia. intros _. apply digits2_pos_lower. Qed.

Lemma Zdigits2_upper (m : Z) : 0 <= m -> m < 2 ^ Zdigits2 m.
Proof.
  destruct m as [|p|p]; try lia; intros _; [reflexivity|apply digits2_pos_upper].
Qed.

Lemma Zdigits2_le_of_lt_pow (m d : Z) : 0 <= m -> 0 <= d -> m < 2 ^ d -> Zdigits2 m <= d.
Proof.
  intros Hm Hd H. destruct (Z.eq_dec m 0) as [->|N]; [cbn; lia|].
  pose proof (Zdigits2_lower m ltac:(lia)) as L.
  destruct (Z_le_gt_dec (Zdigits2 m) d) as [|G]; [assumption|exfalso].
  assert (2 ^ d <= 2 ^ (Zdigits2 m - 1)) by (apply Z.pow_le_mono_r; lia). lia.
Qed.

Lemma Zdigits2_ge_of_pow_le (m d : Z) : 2 ^ (d - 1) <= m -> d <= Zdigits2 m.
Proof.
  intros H.
  destruct (Z_le_gt_dec d 0) as [|Hd]; [pose proof (Zdigits2_nonneg m); lia|].
  assert (P : 0 < 2 ^ (d - 1)) by (apply Z.pow_pos_nonneg; lia).
  pose proof (Zdigits2_upper m ltac:(lia)) as U.
  destruct (Z_le_gt_dec d (Zdigits2 m)) as [|G]; [assumption|exfalso].
  assert (2 ^ Zdigits2 m <= 2 ^ (d - 1))
    by (apply Z.pow_le_mono_r; [lia|pose proof (Zdigits2_nonneg m); lia]).
  lia.
Qed.

(** One step of the right shift halves the mantissa. *)
Lemma shr_1_m (r : shr_record) : 0 <= shr_m r -> shr_m (shr_1 r) = shr_m r / 2.
Proof.
  destruct r as [m b s]. cbn [shr_m]. intros H.
  destruct m as [|[q|q|]|q]; try lia; cbn [shr_1 shr_m].
  - reflexivity.
  - apply Z.div_unique with 1; lia.
  - apply Z.div_unique with 0; lia.
  - reflexivity.
Qed.

Lemma iter_shr_1_m (p : positive) :
  forall r : shr_record, 0 <= shr_m r ->
    shr_m (iter_pos shr_1 p r) = shr_m r / 2 ^ Zpos p.
Proof.
  induction p as [p IH|p IH|]; intros r Hr; cbn [iter_pos].
  - assert (P : 0 < 2 ^ Zpos p) by (apply Z.pow_pos_nonneg; lia).
    assert (H1 : 0 <= shr_m (shr_1 r)) by (rewrite shr_1_m by assumption; apply Z.div_pos; lia).
    assert (H2 : 0 <= shr_m (iter_pos shr_1 p (shr_1 r)))
      by (rewrite IH by assumption; apply Z.div_pos; lia).
    rewrite IH, IH, shr_1_m by assumption.
    rewrite !Z.div_div by lia. f_equal.
    replace (Z.pos p~1) with (1 + (Z.pos p + Z.pos p)) by lia.
    rewrite (Z.pow_add_r 2 1), (Z.pow_add_r 2 (Z.pos p)) by lia. reflexivity.
  - assert (P : 0 < 2 ^ Zpos p) by (apply Z.pow_pos_nonneg; lia).
    assert (H2 : 0 <= shr_m (iter_pos shr_1 p r))
      by (rewrite IH by assumption; apply Z.div_pos; lia).
    rewrite IH, IH by assumption.
    rewrite Z.div_div by lia. f_equal.
    replace (Z.pos p~0) with (Z.pos p + Z.pos p) by lia.
    symmetry. apply Z.pow_add_r; lia.
  - rewrite shr_1_m by assumption. reflexivity.
Qed.

Lemma target_ge_emin (m e : Z) : emin prec emax <= target m e.
Proof. unfold target, fexp. lia. Qed.

Lemma shr_fexp_exponent (m e : Z) (l : location) :
  snd (shr_fexp prec emax m e l) = Z.max e (target m e).
Proof.
  unfold shr_fexp, shr, target.
  destruct (fexp prec emax (Zdigits2 m + e) - e) eqn:E; cbn [snd]; lia.
Qed.

Lemma shr_fexp_m (m e : Z) (l : location) :
  0 <= m ->
  shr_m (fst (shr_fexp prec emax m e l)) = m / 2 ^ (Z.max e (target m e) - e).
Proof.
  intros Hm. unfold shr_fexp, shr, target.
  destruct (fexp prec emax (Zdigits2 m + e) - e) as [|p|p] eqn:E; cbn [fst].
  - rewrite shr_record_of_loc_m. replace (Z.max _ _ - e) with 0 by lia.
    now rewrite Z.pow_0_r, Z.div_1_r.
  - rewrite iter_shr_1_m by (rewrite shr_record_of_loc_m; assumption).
    rewrite shr_record_of_loc_m. f_equal. f_equal. lia.
  - rewrite shr_record_of_loc_m. replace (Z.max _ _ - e) with 0 by lia.
    now rewrite Z.pow_0_r, Z.div_1_r.
Qed.

(** After the shift the mantissa fits the precision. *)
Lemma shr_fexp_m_bound (m e : Z) (l : location) :
  0 <= m -> e <= target m e ->
  0 <= shr_m (fst (shr_fexp prec emax m e l)) < 2 ^ 53.
Proof.
  intros Hm He. rewrite shr_fexp_m by assumption.
  rewrite Z.max_r by assumption.
  set (n := target m e - e). assert (Hn : 0 <= n) by (unfold n; lia).
  assert (P : 0 < 2 ^ n) by (apply Z.pow_pos_nonneg; lia).
  split; [apply Z.div_pos; lia|].
  apply Z.div_lt_upper_bound; [assumption|].
  pose proof (Zdigits2_upper m Hm) as U.
  assert (D : Zdigits2 m <= n + 53).
  { unfold n, target, fexp, prec. lia. }
  assert (2 ^ Zdigits2 m <= 2 ^ (n + 53))
    by (apply Z.pow_le_mono_r; [lia|assumption]).
  rewrite Z.pow_add_r in H by lia. lia.
Qed.

(** Above the least exponent the shifted mantissa has all its 53 bits. *)
Lemma shr_fexp_m_normal (m e : Z) (l : location) :
  0 <= m -> e <= target m e -> emin prec emax < target m e ->
  2 ^ 52 <= shr_m (fst (shr_fexp prec emax m e l)).
Proof.
  intros Hm He Hn. rewrite shr_fexp_m by assumption.
  rewrite Z.max_r by assumption.
  assert (D : target m e = Zdigits2 m + e - 53) by (unfold target, fexp, prec in *; lia).
  set (n := target m e - e). assert (Hn' : 0 <= n) by (unfold n; lia).
  assert (P : 0 < 2 ^ n) by (apply Z.pow_pos_nonneg; lia).
  apply Z.div_le_lower_bound; [assumption|].
  assert (Hpos : 0 < m).
  { destruct (Z.eq_dec m 0) as [->|]; [|lia]. cbn in D. unfold n in Hn'. lia. }
  pose proof (Zdigits2_lower m Hpos) as L.
  replace (Zdigits2 m - 1) with (n + 52) in L by (unfold n; lia).
  rewrite Z.pow_add_r in L by lia. lia.
Qed.

Lemma binary_round_aux_build (s : bool) (m e : Z) (l : location) :
  binary_round_aux prec emax s m e l
  = build s (round_nearest_even (shr_m (fst (shr_fexp prec emax m e l)))
               (loc_of_shr_record (fst (shr_fexp prec emax m e l))))
      (snd (shr_fexp prec emax m e l)).
Proof.
  unfold binary_round_aux, build.
  destruct (shr_fexp prec emax m e l) as [r1 e1]. cbn [fst snd].
  destruct (shr_fexp prec emax _ e1 loc_Exact) as [r2 e2].
  destruct (shr_m r2); reflexivity.
Qed.

Lemma build_zero (s : bool) (e : Z) : build s 0 e = S754_zero s.
Proof.
  unfold build.
  pose proof (shr_fexp_m 0 e loc_Exact ltac:(lia)) as H.
  destruct (shr_fexp prec emax 0 e loc_Exact) as [r e']. cbn [fst] in H.
  rewrite H, Z.div_0_l by (apply Z.pow_nonzero; lia). reflexivity.
Qed.

Lemma build_small (s : bool) (M : positive) (e : Z) :
  Zpos M < 2 ^ 53 -> emin prec emax <= e ->
  build s (Zpos M) e
  = if e <=? emax - prec then S754_finite s M e else S754_infinity s.
Proof.
  intros HM He. unfold build.
  pose proof (shr_fexp_m (Zpos M) e loc_Exact ltac:(lia)) as H.
  pose proof (shr_fexp_exponent (Zpos M) e loc_Exact) as E.
  destruct (shr_fexp prec emax (Zpos M) e loc_Exact) as [r e']. cbn [fst snd] in H, E.
  assert (D : Zdigits2 (Zpos M) <= 53) by (apply Zdigits2_le_of_lt_pow; lia).
  assert (Tg : target (Zpos M) e <= e) by (unfold target, fexp, prec, emin in *; lia).
  rewrite Z.max_l in E, H by lia. subst e'.
  rewrite Z.sub_diag, Z.pow_0_r, Z.div_1_r in H. rewrite H. reflexivity.
Qed.

Lemma build_bump (s : bool) (e : Z) :
  emin prec emax <= e ->
  build s (2 ^ 53) e
  = if e + 1 <=? emax - prec then S754_finite s (2 ^ 52) (e + 1) else S754_infinity s.
Proof.
  intros He. unfold build.
  pose proof (shr_fexp_m (2 ^ 53) e loc_Exact ltac:(lia)) as H.
  pose proof (shr_fexp_exponent (2 ^ 53) e loc_Exact) as E.
  destruct (shr_fexp prec emax (2 ^ 53) e loc_Exact) as [r e']. cbn [fst snd] in H, E.
  assert (Tg : target (2 ^ 53) e = e + 1).
  { unfold target, fexp, prec, emin, emax in *. change (Zdigits2 (2 ^ 53)) with 54. lia. }
  rewrite Tg in E, H. rewrite Z.max_r in E, H by lia. subst e'.
  replace (e + 1 - e) with 1 in H by lia. rewrite H. reflexivity.
Qed.

Local Close Scope Z_scope.

(** * Where a real number lies between two multiples of a power of two *)

Lemma bpow_pos (e : Z) : 0 < bpow e.
Proof. apply Qpower_0_lt. reflexivity. Qed.

Lemma bpow_add (a b : Z) : bpow (a + b) == bpow a * bpow b.
Proof. apply Qpower_plus. discriminate. Qed.

Lemma bpow_succ (e : Z) : bpow (e + 1) == 2 * bpow e.
Proof. rewrite bpow_add. change (bpow 1) with 2. ring. Qed.

Lemma bpow_le (a b : Z) : (a <= b)%Z -> bpow a <= bpow b.
Proof. intros H. apply Qpower_le_compat_l; [assumption|discriminate]. Qed.

Lemma bpow_lt_inv (a b : Z) : bpow a < bpow b -> (a < b)%Z.
Proof. intros H. apply (Qpower_lt_compat_l_inv 2); [assumption|reflexivity]. Qed.

Lemma bpow_inject (n : Z) : (0 <= n)%Z -> inject_Z (2 ^ n) == bpow n.
Proof. intros H. now rewrite Zpower_Qpower. Qed.

Lemma located_bounds (r : shr_record) (e : Z) (v : Q) :
  located r e v ->
  inject_Z (shr_m r) * bpow e <= v /\ v < (inject_Z (shr_m r) + 1) * bpow e.
Proof.
  pose proof (bpow_pos e) as P. unfold located.
  destruct (shr_r r), (shr_s r); intros H; lra.
Qed.

Lemma inject_Z_xI (q : positive) : inject_Z (Zpos q~1) == 2 * inject_Z (Zpos q) + 1.
Proof. rewrite Pos2Z.inj_xI, inject_Z_plus, inject_Z_mult. reflexivity. Qed.

Lemma inject_Z_xO (q : positive) : inject_Z (Zpos q~0) == 2 * inject_Z (Zpos q).
Proof. rewrite Pos2Z.inj_xO, inject_Z_mult. reflexivity. Qed.

Lemma located_shr_1 (r : shr_record) (e : Z) (v : Q) :
  (0 <= shr_m r)%Z -> located r e v -> located (shr_1 r) (e + 1) v.
Proof.
  pose proof (bpow_pos e) as P. pose proof (bpow_succ e) as S.
  destruct r as [m b s]. unfold located. cbn [shr_m shr_r shr_s]. intros Hm.
  destruct m as [|[q|q|]|q]; try lia; destruct b, s;
    cbn [shr_1 shr_m shr_r shr_s orb]; intros H;
    rewrite ?inject_Z_xI, ?inject_Z_xO in H; rewrite ?S;
    change (inject_Z 0) with 0 in *; change (inject_Z 1) with 1 in *; lra.
Qed.

Lemma shr_1_nonneg (r : shr_record) : (0 <= shr_m r)%Z -> (0 <= shr_m (shr_1 r))%Z.
Proof. intros H. rewrite shr_1_m by assumption. apply Z.div_pos; lia. Qed.

Lemma iter_shr_1_nonneg (p : positive) (r : shr_record) :
  (0 <= shr_m r)%Z -> (0 <= shr_m (iter_pos shr_1 p r))%Z.
Proof.
  intros H. rewrite iter_shr_1_m by assumption.
  apply Z.div_pos; [assumption|]. apply Z.pow_pos_nonneg; lia.
Qed.

Lemma located_iter (p : positive) :
  forall (r : shr_record) (e : Z) (v : Q),
    (0 <= shr_m r)%Z -> located r e v ->
    located (iter_pos shr_1 p r) (e + Zpos p) v.
Proof.
  induction p as [p IH|p IH|]; intros r e v Hr H; cbn [iter_pos].
  - replace (e + Zpos p~1)%Z with (e + 1 + Zpos p + Zpos p)%Z by lia.
    apply IH; [apply iter_shr_1_nonneg, shr_1_nonneg, Hr|].
    apply IH; [apply shr_1_nonneg, Hr|].
    now apply located_shr_1.
  - replace (e + Zpos p~0)%Z with (e + Zpos p + Zpos p)%Z by lia.
    apply IH; [apply iter_shr_1_nonneg, Hr|]. now apply IH.
  - now apply located_shr_1.
Qed.

Lemma located_shr_fexp (m e : Z) (l : location) (v : Q) :
  (0 <= m)%Z -> located (shr_record_of_loc m l) e v ->
  located (fst (shr_fexp prec emax m e l)) (snd (shr_fexp prec emax m e l)) v.
Proof.
  intros Hm H. unfold shr_fexp, shr.
  destruct (fexp prec emax (Zdigits2 m + e) - e)%Z as [|p|p]; cbn [fst snd];
    try assumption.
  apply located_iter; [now rewrite shr_record_of_loc_m|assumption].
Qed.

(** ** Rounding to nearest even is monotone *)

Lemma round_nearest_even_upper (m : Z) (l : location) :
  (round_nearest_even m l <= m + 1)%Z.
Proof.
  unfold round_nearest_even. destruct l as [|[| |]]; try lia.
  destruct (Z.even m); lia.
Qed.

Lemma inject_Z_lt_inv (a b : Z) : inject_Z a < inject_Z b -> (a < b)%Z.
Proof. intros H. now rewrite Zlt_Qlt. Qed.

Lemma located_mantissa_le (r r' : shr_record) (e : Z) (v v' : Q) :
  located r e v -> located r' e v' -> v <= v' -> (shr_m r <= shr_m r')%Z.
Proof.
  intros H H' Hv. apply located_bounds in H, H'.
  pose proof (bpow_pos e) as P.
  assert (L : inject_Z (shr_m r) * bpow e < (inject_Z (shr_m r') + 1) * bpow e) by lra.
  assert (L' : inject_Z (shr_m r) < inject_Z (shr_m r' + 1)).
  { rewrite inject_Z_plus. change (inject_Z 1) with 1.
    apply Qmult_lt_r with (bpow e); assumption. }
  apply inject_Z_lt_inv in L'. lia.
Qed.

Lemma round_nearest_even_mono (r r' : shr_record) (e : Z) (v v' : Q) :
  located r e v -> located r' e v' -> v <= v' ->
  (round_nearest_even (shr_m r) (loc_of_shr_record r)
   <= round_nearest_even (shr_m r') (loc_of_shr_record r'))%Z.
Proof.
  intros H H' Hv.
  pose proof (located_mantissa_le r r' e v v' H H' Hv) as Hm.
  destruct (Z.eq_dec (shr_m r) (shr_m r')) as [E|N].
  - pose proof (bpow_pos e) as P.
    destruct r as [m b s], r' as [m' b' s']. cbn [shr_m] in *. subst m'.
    unfold located in H, H'. cbn [shr_m shr_r shr_s] in H, H'.
    unfold loc_of_shr_record, round_nearest_even.
    destruct b, s, b', s'; try lia; try (destruct (Z.even m); lia);
      exfalso; lra.
  - pose proof (round_nearest_even_upper (shr_m r) (loc_of_shr_record r)).
    pose proof (round_nearest_even_lower (shr_m r') (loc_of_shr_record r')).
    lia.
Qed.

(** ** The exponents two ordered numbers are shifted to *)

Lemma fexp_mono (a b : Z) : (a <= b)%Z -> (fexp prec emax a <= fexp prec emax b)%Z.
Proof. unfold fexp. lia. Qed.

Lemma target_mono (m m' e e' : Z) (l l' : location) (v v' : Q) :
  (0 <= m)%Z -> (0 <= m')%Z -> (e <= target m e)%Z ->
  located (shr_record_of_loc m l) e v ->
  located (shr_record_of_loc m' l') e' v' ->
  v <= v' ->
  (target m e <= target m' e')%Z.
Proof.
  intros Hm Hm' He H H' Hv.
  destruct (Z.eq_dec m 0) as [->|N].
  - pose proof (target_ge_emin m' e'). unfold target, fexp, prec, emin, emax in *.
    cbn [Zdigits2] in *. lia.
  - apply fexp_mono.
    apply located_bounds in H, H'. rewrite shr_record_of_loc_m in H, H'.
    pose proof (Zdigits2_lower m ltac:(lia)) as L.
    pose proof (Zdigits2_upper m' Hm') as U.
    pose proof (Zdigits2_pos m ltac:(lia)). pose proof (Zdigits2_nonneg m').
    assert (L1 : bpow (Zdigits2 m - 1 + e) <= inject_Z m * bpow e).
    { pose proof (bpow_inject (Zdigits2 m - 1) ltac:(lia)) as E.
      rewrite bpow_add, <- E.
      apply Qmult_le_compat_r; [|apply Qlt_le_weak, bpow_pos].
      now rewrite <- Zle_Qle. }
    assert (U1 : (inject_Z m' + 1) * bpow e' <= bpow (Zdigits2 m' + e')).
    { pose proof (bpow_inject (Zdigits2 m') ltac:(lia)) as E.
      rewrite bpow_add, <- E.
      apply Qmult_le_compat_r; [|apply Qlt_le_weak, bpow_pos].
      change 1 with (inject_Z 1). rewrite <- inject_Z_plus, <- Zle_Qle. lia. }
    assert (B : bpow (Zdigits2 m - 1 + e) < bpow (Zdigits2 m' + e')) by lra.
    apply bpow_lt_inv in B. lia.
Qed.

Local Open Scope Z_scope.

(** * The order of two roundings *)

Lemma build_renorm (s : bool) (M e : Z) :
  0 <= M <= 2 ^ 53 -> emin prec emax <= e ->
  build s M e
  = if M =? 0 then S754_zero s
    else if snd (renorm M e) <=? emax - prec
         then S754_finite s (Z.to_pos (fst (renorm M e))) (snd (renorm M e))
         else S754_infinity s.
Proof.
  intros HM He. unfold renorm.
  destruct (Z.eqb_spec M 0) as [->|N0]; [apply build_zero|].
  destruct (Z.eqb_spec M (2 ^ 53)) as [->|N]; cbn [fst snd].
  - rewrite build_bump by assumption. reflexivity.
  - destruct M as [|p|p]; try lia. rewrite build_small by lia. reflexivity.
Qed.

Lemma fleb_finite_pos (m m' : positive) (e e' : Z) :
  e < e' \/ (e = e' /\ (m <= m')%positive) ->
  fleb (S754_finite false m e) (S754_finite false m' e') = true.
Proof.
  intros H. unfold fleb, SFleb, SFcompare.
  destruct (Z.compare_spec e e') as [E|E|E]; try reflexivity; try lia.
  destruct H as [H|[_ H]]; [lia|].
  change (Pos.compare_cont Eq m m') with (Pos.compare m m').
  destruct (Pos.compare_spec m m'); try reflexivity. lia.
Qed.

Lemma fleb_finite_neg (m m' : positive) (e e' : Z) :
  e < e' \/ (e = e' /\ (m <= m')%positive) ->
  fleb (S754_finite true m' e') (S754_finite true m e) = true.
Proof.
  intros H. unfold fleb, SFleb, SFcompare.
  destruct (Z.compare_spec e' e) as [E|E|E]; try reflexivity; try lia.
  destruct H as [H|[_ H]]; [lia|].
  change (Pos.compare_cont Eq m' m) with (Pos.compare m' m).
  destruct (Pos.compare_spec m' m); try reflexivity. lia.
Qed.

Lemma renorm_order (M M' e e' : Z) :
  0 < M <= 2 ^ 53 -> 0 < M' <= 2 ^ 53 -> e <= e' ->
  (e = e' -> M <= M') -> (e < e' -> 2 ^ 52 <= M') ->
  0 < fst (renorm M e) /\ 0 < fst (renorm M' e') /\
  (snd (renorm M e) < snd (renorm M' e') \/
   (snd (renorm M e) = snd (renorm M' e') /\
    fst (renorm M e) <= fst (renorm M' e'))).
Proof.
  intros HM HM' He H1 H2. unfold renorm.
  destruct (Z.eqb_spec M (2 ^ 53)), (Z.eqb_spec M' (2 ^ 53)); cbn [fst snd]; lia.
Qed.

(** Two second stages, for non-negative numbers. *)
Lemma build_le (M M' e e' : Z) :
  0 <= M <= 2 ^ 53 -> 0 <= M' <= 2 ^ 53 ->
  emin prec emax <= e -> e <= e' ->
  (e = e' -> M <= M') -> (e < e' -> 2 ^ 52 <= M') ->
  fleb (build false M e) (build false M' e') = true /\
  fleb (build true M' e') (build true M e) = true.
Proof.
  intros HM HM' He Hee H1 H2.
  rewrite !build_renorm by lia.
  destruct (Z.eqb_spec M 0) as [->|N0].
  - destruct (Z.eqb_spec M' 0) as [->|N0']; [split; reflexivity|].
    destruct (snd (renorm M' e') <=? emax - prec); split; reflexivity.
  - assert (N0' : M' <> 0) by (destruct (Z.eq_dec e e'); lia).
    destruct (Z.eqb_spec M' 0) as [|_]; [contradiction|].
    destruct (renorm_order M M' e e') as (P & P' & O); try lia.
    destruct (Z.leb_spec (snd (renorm M e)) (emax - prec)) as [B|B],
             (Z.leb_spec (snd (renorm M' e')) (emax - prec)) as [B'|B'];
      try (split; reflexivity); try lia.
    split; [apply fleb_finite_pos|apply fleb_finite_neg];
      (destruct O as [O|[O1 O2]]; [left; assumption|right; split; [assumption|]]);
      destruct (fst (renorm M e)), (fst (renorm M' e')); cbn [Z.to_pos]; lia.
Qed.

(** ** A located number and its rounding *)

Lemma rounds_stage (m e : Z) (l : location) (v : Q) (s : bool) :
  rounds m e l v ->
  exists r : shr_record,
    located r (target m e) v /\
    0 <= shr_m r < 2 ^ 53 /\
    (emin prec emax < target m e -> 2 ^ 52 <= shr_m r) /\
    binary_round_aux prec emax s m e l
    = build s (round_nearest_even (shr_m r) (loc_of_shr_record r)) (target m e).
Proof.
  intros (Hm & He & H).
  exists (fst (shr_fexp prec emax m e l)).
  pose proof (located_shr_fexp m e l v Hm H) as L.
  rewrite shr_fexp_exponent, Z.max_r in L by assumption.
  split; [exact L|]. split; [now apply shr_fexp_m_bound|].
  split; [now apply shr_fexp_m_normal|].
  rewrite binary_round_aux_build, shr_fexp_exponent, Z.max_r by assumption.
  reflexivity.
Qed.

(** Rounding is monotone: of two located numbers, the smaller one rounds
    to the smaller float.  For negative numbers the order is reversed. *)
Lemma binary_round_aux_mono (m m' e e' : Z) (l l' : location) (v v' : Q) :
  rounds m e l v -> rounds m' e' l' v' -> (v <= v')%Q ->
  fleb (binary_round_aux prec emax false m e l)
       (binary_round_aux prec emax false m' e' l') = true /\
  fleb (binary_round_aux prec emax true m' e' l')
       (binary_round_aux prec emax true m e l) = true.
Proof.
  intros R R' Hv.
  assert (HT : target m e <= target m' e').
  { destruct R as (Hm & He & H), R' as (Hm' & He' & H').
    now apply (target_mono m m' e e' l l' v v'). }
  destruct (rounds_stage m e l v false R) as (r & L & B & N & E).
  destruct (rounds_stage m e l v true R) as (r0 & L0 & B0 & N0 & E0).
  destruct (rounds_stage m' e' l' v' false R') as (r' & L' & B' & N' & E').
  destruct (rounds_stage m' e' l' v' true R') as (r0' & L0' & B0' & N0' & E0').
  rewrite E, E', E0, E0'.
  pose proof (round_nearest_even_lower (shr_m r) (loc_of_shr_record r)).
  pose proof (round_nearest_even_upper (shr_m r) (loc_of_shr_record r)).
  pose proof (round_nearest_even_lower (shr_m r') (loc_of_shr_record r')).
  pose proof (round_nearest_even_upper (shr_m r') (loc_of_shr_record r')).
  pose proof (round_nearest_even_lower (shr_m r0) (loc_of_shr_record r0)).
  pose proof (round_nearest_even_upper (shr_m r0) (loc_of_shr_record r0)).
  pose proof (round_nearest_even_lower (shr_m r0') (loc_of_shr_record r0')).
  pose proof (round_nearest_even_upper (shr_m r0') (loc_of_shr_record r0')).
  pose proof (target_ge_emin m e).
  split.
  - apply build_le; [lia|lia|lia|lia| |].
    + intros Eq. rewrite <- Eq in L'.
      apply (round_nearest_even_mono r r' (target m e) v v'); assumption.
    + intros Lt. specialize (N' ltac:(lia)). lia.
  - apply build_le; [lia|lia|lia|lia| |].
    + intros Eq. rewrite <- Eq in L0'.
      apply (round_nearest_even_mono r0 r0' (target m e) v v'); assumption.
    + intros Lt. specialize (N0' ltac:(lia)). lia.
Qed.

(** The result of a rounding is a well-formed number. *)
Lemma binary_round_aux_valid (m e : Z) (l : location) (v : Q) (s : bool) :
  rounds m e l v -> binary64 (binary_round_aux prec emax s m e l).
Proof.
  intros R. destruct (rounds_stage m e l v s R) as (r & L & B & N & E).
  rewrite E. clear E.
  pose proof (round_nearest_even_lower (shr_m r) (loc_of_shr_record r)) as Lo.
  pose proof (round_nearest_even_upper (shr_m r) (loc_of_shr_record r)) as Up.
  pose proof (target_ge_emin m e) as Tg.
  set (M := round_nearest_even (shr_m r) (loc_of_shr_record r)) in *.
  set (T := target m e) in *.
  rewrite build_renorm by lia.
  destruct (Z.eqb_spec M 0) as [|N0]; [reflexivity|].
  destruct (Z.leb_spec (snd (renorm M T)) (emax - prec)) as [Bd|Bd]; [|reflexivity].
  unfold binary64, valid_binary, bounded, canonical_mantissa.
  apply andb_true_intro. split; [|now apply Z.leb_le].
  apply Z.eqb_eq. unfold renorm in *.
  destruct (Z.eqb_spec M (2 ^ 53)) as [EM|NM]; cbn [fst snd] in *.
  - change (Z.pos (digits2_pos (Z.to_pos (2 ^ 52)))) with 53.
    unfold fexp, emin, prec, emax in *. lia.
  - assert (HM : 0 < M < 2 ^ 53) by lia.
    destruct M as [|p|p]; try lia. cbn [Z.to_pos].
    change (Z.pos (digits2_pos p)) with (Zdigits2 (Z.pos p)).
    assert (D : Zdigits2 (Z.pos p) <= 53) by (apply Zdigits2_le_of_lt_pow; lia).
    destruct (Z.eq_dec T (emin prec emax)) as [ET|NT].
    + unfold fexp, emin, prec, emax in *. lia.
    + specialize (N ltac:(lia)).
      assert (D' : 53 <= Zdigits2 (Z.pos p)).
      { apply Zdigits2_ge_of_pow_le. change (53 - 1) with 52. lia. }
      unfold fexp, emin, prec, emax in *. lia.
Qed.

Local Close Scope Z_scope.

(** * The value of a float and the order of floats *)

Lemma B2Q_finite (s : bool) (m : positive) (e : Z) :
  B2Q (S754_finite s m e)
  == (if s then - inject_Z (Zpos m) else inject_Z (Zpos m)) * bpow e.
Proof. unfold B2Q, bpow. destruct s; cbn [cond_Zopp]; [|reflexivity].
  rewrite <- inject_Z_opp. reflexivity. Qed.

Lemma inject_Z_pos_lt (m : positive) : 0 < inject_Z (Zpos m).
Proof. change 0 with (inject_Z 0). rewrite <- Zlt_Qlt. lia. Qed.

(** Well-formed positive numbers are ordered as their values are. *)
Lemma fleb_finite_pos_value (m m' : positive) (e e' : Z) :
  binary64 (S754_finite false m e) -> binary64 (S754_finite false m' e') ->
  fleb (S754_finite false m e) (S754_finite false m' e') = true ->
  inject_Z (Zpos m) * bpow e <= inject_Z (Zpos m') * bpow e'.
Proof.
  intros V V' H.
  apply binary64_finite in V as (E & U & _).
  apply binary64_finite in V' as (E' & _ & L').
  unfold fleb, SFleb, SFcompare in H.
  destruct (Z.compare_spec e e') as [C|C|C]; try discriminate.
  - subst e'. apply Qmult_le_compat_r; [|apply Qlt_le_weak, bpow_pos].
    rewrite <- Zle_Qle.
    change (Pos.compare_cont Eq m m') with (Pos.compare m m') in H.
    destruct (Pos.compare_spec m m'); try discriminate; lia.
  - specialize (L' ltac:(lia)).
    assert (B : bpow (e + 1) <= bpow e') by (apply bpow_le; lia).
    rewrite bpow_succ in B.
    assert (U1 : inject_Z (Zpos m) <= inject_Z (2 ^ 53)) by (rewrite <- Zle_Qle; lia).
    assert (L1 : inject_Z (2 ^ 52) <= inject_Z (Zpos m')) by (rewrite <- Zle_Qle; lia).
    pose proof (bpow_pos e) as P. pose proof (bpow_pos e') as P'.
    apply Qle_trans with (inject_Z (2 ^ 53) * bpow e).
    + apply Qmult_le_compat_r; [assumption|lra].
    + apply Qle_trans with (inject_Z (2 ^ 52) * bpow e').
      * change (inject_Z (2 ^ 53)) with (2 * inject_Z (2 ^ 52)).
        assert (0 < inject_Z (2 ^ 52)) by reflexivity. nra.
      * apply Qmult_le_compat_r; [assumption|lra].
Qed.

Lemma fleb_B2Q (x y : spec_float) :
  binary64 x -> binary64 y -> is_real x = true -> is_real y = true ->
  fleb x y = true -> B2Q x <= B2Q y.
Proof.
  intros Vx Vy Rx Ry H.
  destruct x as [sx|sx| |sx mx ex], y as [sy|sy| |sy my ey]; try discriminate;
    rewrite ?B2Q_finite; cbn [B2Q].
  - pose proof (inject_Z_pos_lt my). pose proof (bpow_pos ey).
    destruct sy; [discriminate H|]. nra.
  - pose proof (inject_Z_pos_lt mx). pose proof (bpow_pos ex).
    destruct sx; [|discriminate H]. nra.
  - pose proof (inject_Z_pos_lt mx). pose proof (bpow_pos ex).
    pose proof (inject_Z_pos_lt my). pose proof (bpow_pos ey).
    destruct sx, sy.
    + assert (H' : fleb (S754_finite false my ey) (S754_finite false mx ex) = true).
      { unfold fleb, SFleb, SFcompare in *.
        rewrite (Z.compare_antisym ex ey).
        change (Pos.compare_cont Eq my mx) with (Pos.compare my mx).
        change (Pos.compare_cont Eq mx my) with (Pos.compare mx my) in H.
        rewrite (Pos.compare_antisym mx my).
        destruct (ex ?= ey)%Z; destruct (mx ?= my)%positive; cbn in *;
          try reflexivity; try discriminate. }
      pose proof (fleb_finite_pos_value my mx ey ex Vy Vx H'). lra.
    + nra.
    + discriminate H.
    + now apply fleb_finite_pos_value.
Qed.

(** A number with the sign bit set is below one without. *)
Lemma fleb_signs (x y : spec_float) :
  signed_result true x -> signed_result false y -> fleb x y = true.
Proof.
  intros [Nx Sx] [Ny Sy].
  destruct x as [sx|sx| |sx mx ex], y as [sy|sy| |sy my ey]; try discriminate;
    cbn [sign_bit] in Sx, Sy; subst; reflexivity.
Qed.

Lemma fleb_zero_nonneg (x y : spec_float) :
  is_zero x = true -> signed_result false y -> fleb x y = true.
Proof.
  intros Zx [Ny Sy].
  destruct x as [sx|sx| |sx mx ex], y as [sy|sy| |sy my ey]; try discriminate;
    cbn [sign_bit] in Sy; subst; reflexivity.
Qed.

Lemma fleb_nonpos_zero (x y : spec_float) :
  signed_result true x -> is_zero y = true -> fleb x y = true.
Proof.
  intros [Nx Sx] Zy.
  destruct x as [sx|sx| |sx mx ex], y as [sy|sy| |sy my ey]; try discriminate;
    cbn [sign_bit] in Sx; subst; reflexivity.
Qed.

Lemma fleb_zeros (x y : spec_float) :
  is_zero x = true -> is_zero y = true -> fleb x y = true.
Proof. destruct x, y; try discriminate; reflexivity. Qed.

(** * A float as the rounding of a real number *)

Lemma rounds_nonneg_result (m e : Z) (l : location) (v : Q) (s : bool) :
  rounds m e l v -> signed_result s (binary_round_aux prec emax s m e l).
Proof. intros (Hm & _). now apply binary_round_aux_sign. Qed.

(** Rounding is monotone. *)
Lemma rounding_of_mono (v v' : Q) (r r' : spec_float) :
  rounding_of v r -> rounding_of v' r' -> v <= v' -> fleb r r' = true.
Proof.
  intros [[E Z]|[[P (m & e & l & R & ->)]|[N (m & e & l & R & ->)]]]
         [[E' Z']|[[P' (m' & e' & l' & R' & ->)]|[N' (m' & e' & l' & R' & ->)]]] Hv;
    try (exfalso; lra).
  - now apply fleb_zeros.
  - apply fleb_zero_nonneg; [assumption|]. eapply rounds_nonneg_result, R'.
  - eapply binary_round_aux_mono; eassumption.
  - apply fleb_nonpos_zero; [|assumption]. eapply rounds_nonneg_result, R.
  - apply fleb_signs; eapply rounds_nonneg_result; eassumption.
  - assert (Hv' : - v' <= - v) by lra.
    apply (binary_round_aux_mono m' m e' e l' l (- v') (- v) R' R Hv').
Qed.

Lemma rounding_of_valid (v : Q) (r : spec_float) :
  rounding_of v r -> binary64 r.
Proof.
  intros [[E Z]|[[P (m & e & l & R & ->)]|[N (m & e & l & R & ->)]]].
  - destruct r; try discriminate. reflexivity.
  - eapply binary_round_aux_valid, R.
  - eapply binary_round_aux_valid, R.
Qed.

Lemma rounding_of_not_nan (v : Q) (r : spec_float) :
  rounding_of v r -> is_nan r = false.
Proof.
  intros [[E Z]|[[P (m & e & l & R & ->)]|[N (m & e & l & R & ->)]]].
  - destruct r; try discriminate. reflexivity.
  - eapply rounds_nonneg_result, R.
  - eapply rounds_nonneg_result, R.
Qed.

Lemma rounding_of_ext (v v' : Q) (r : spec_float) :
  v == v' -> rounding_of v r -> rounding_of v' r.
Proof.
  intros E [[E0 Z]|[[P (m & e & l & (Hm & He & L) & ->)]|[N (m & e & l & (Hm & He & L) & ->)]]].
  - left. split; [now rewrite <- E|assumption].
  - right; left. split; [now rewrite <- E|].
    exists m, e, l. split; [|reflexivity]. repeat split; try assumption.
    unfold located in *. destruct (shr_r _), (shr_s _); now rewrite <- E.
  - right; right. split; [now rewrite <- E|].
    exists m, e, l. split; [|reflexivity]. repeat split; try assumption.
    unfold located in *. destruct (shr_r _), (shr_s _); now rewrite <- E.
Qed.

(** * Subtraction is a rounding *)

Lemma Zdigits2_mul_pow2 (m k : Z) :
  (0 < m)%Z -> (0 <= k)%Z -> Zdigits2 (m * 2 ^ k) = (Zdigits2 m + k)%Z.
Proof.
  intros Hm Hk.
  assert (P : (0 < 2 ^ k)%Z) by (apply Z.pow_pos_nonneg; lia).
  pose proof (Zdigits2_lower m Hm) as L. pose proof (Zdigits2_upper m ltac:(lia)) as U.
  pose proof (Zdigits2_pos m Hm) as D.
  apply Z.le_antisymm.
  - apply Zdigits2_le_of_lt_pow; [nia|lia|].
    rewrite Z.pow_add_r by lia. nia.
  - apply Zdigits2_ge_of_pow_le.
    replace (Zdigits2 m + k - 1)%Z with (Zdigits2 m - 1 + k)%Z by lia.
    rewrite Z.pow_add_r by lia. nia.
Qed.

Lemma shl_align_value (m : positive) (e e' : Z) :
  Zpos (fst (shl_align m e e')) = (Zpos m * 2 ^ (e - snd (shl_align m e e')))%Z /\
  snd (shl_align m e e') = Z.min e e'.
Proof.
  split; [|apply shl_align_exponent].
  unfold shl_align. destruct (e' - e)%Z as [|d|d] eqn:E; cbn [fst snd].
  - rewrite Z.sub_diag, Z.pow_0_r. lia.
  - rewrite Z.sub_diag, Z.pow_0_r. lia.
  - rewrite iter_xO_value. f_equal. f_equal. lia.
Qed.

Lemma inject_Z_mul_pow2 (m k : Z) :
  (0 <= k)%Z -> inject_Z (m * 2 ^ k) == inject_Z m * bpow k.
Proof. intros H. rewrite inject_Z_mult, bpow_inject by assumption. reflexivity. Qed.

(** A mantissa brought to the exponent of the format is ready to be
    rounded, and still denotes the same number. *)
Lemma shl_align_rounds (p : positive) (e : Z) :
  let a := shl_align p e (fexp prec emax (Zpos (digits2_pos p) + e)) in
  rounds (Zpos (fst a)) (snd a) loc_Exact (inject_Z (Zpos p) * bpow e).
Proof.
  intros a.
  destruct (shl_align_value p e (fexp prec emax (Zpos (digits2_pos p) + e))) as [Hm He].
  fold a in Hm, He.
  assert (K : (0 <= e - snd a)%Z) by lia.
  split; [|split].
  - lia.
  - unfold target. rewrite Hm, Zdigits2_mul_pow2 by lia. cbn [Zdigits2].
    replace (Z.pos (digits2_pos p) + (e - snd a) + snd a)%Z
      with (Z.pos (digits2_pos p) + e)%Z by lia.
    lia.
  - cbn [shr_record_of_loc located shr_r shr_s shr_m].
    rewrite Hm, inject_Z_mul_pow2 by assumption.
    rewrite <- Qmult_assoc, <- bpow_add.
    replace (e - snd a + snd a)%Z with e by lia. reflexivity.
Qed.

Lemma binary_normalize_rounding (z e : Z) :
  rounding_of (inject_Z z * bpow e) (binary_normalize prec emax z e false).
Proof.
  pose proof (bpow_pos e) as P.
  destruct z as [|p|p]; cbn [binary_normalize].
  - left. split; [|reflexivity]. change (inject_Z 0) with 0. lra.
  - right; left. pose proof (inject_Z_pos_lt p). split; [nra|].
    unfold binary_round.
    pose proof (shl_align_rounds p e) as R. cbn zeta in R.
    destruct (shl_align p e _) as [mz ez]. cbn [fst snd] in R.
    exists (Zpos mz), ez, loc_Exact. split; [exact R|reflexivity].
  - right; right. pose proof (inject_Z_pos_lt p).
    assert (E : inject_Z (Zneg p) == - inject_Z (Zpos p))
      by (rewrite <- inject_Z_opp; reflexivity).
    split; [rewrite E; nra|].
    unfold binary_round.
    pose proof (shl_align_rounds p e) as R. cbn zeta in R.
    destruct (shl_align p e _) as [mz ez]. cbn [fst snd] in R.
    exists (Zpos mz), ez, loc_Exact. split; [|reflexivity].
    destruct R as (R1 & R2 & R3). split; [assumption|]. split; [assumption|].
    cbn [shr_record_of_loc located shr_r shr_s shr_m] in *.
    rewrite <- R3, E. ring.
Qed.

(** A well-formed number is the rounding of its own value. *)
Lemma binary64_canonical (s : bool) (m : positive) (e : Z) :
  binary64 (S754_finite s m e) ->
  target (Zpos m) e = e /\ (e <=? emax - prec)%Z = true.
Proof.
  unfold binary64, valid_binary, bounded, canonical_mantissa. intros V.
  apply andb_prop in V as [V B]. apply Z.eqb_eq in V. split; assumption.
Qed.

Lemma binary_round_aux_self (s s' : bool) (m : positive) (e : Z) :
  binary64 (S754_finite s m e) ->
  binary_round_aux prec emax s' (Zpos m) e loc_Exact = S754_finite s' m e.
Proof.
  intros V. destruct (binary64_canonical s m e V) as [Tg B].
  apply binary64_finite in V as (E & U & _).
  rewrite binary_round_aux_build.
  unfold shr_fexp, shr. fold (target (Zpos m) e). rewrite Tg, Z.sub_diag.
  cbn [fst snd shr_record_of_loc shr_m loc_of_shr_record round_nearest_even].
  rewrite build_small by assumption. now rewrite B.
Qed.

Lemma rounds_self (s : bool) (m : positive) (e : Z) :
  binary64 (S754_finite s m e) ->
  rounds (Zpos m) e loc_Exact (inject_Z (Zpos m) * bpow e).
Proof.
  intros V. destruct (binary64_canonical s m e V) as [Tg B].
  split; [lia|]. split; [lia|]. reflexivity.
Qed.

Lemma rounding_of_self (x : spec_float) :
  binary64 x -> is_real x = true -> rounding_of (B2Q x) x.
Proof.
  intros V R. destruct x as [s|s| |s m e]; try discriminate.
  - left. split; reflexivity.
  - pose proof (bpow_pos e) as P. pose proof (inject_Z_pos_lt m) as Pm.
    pose proof (rounds_self s m e V) as Hr.
    apply (rounding_of_ext
             ((if s then - inject_Z (Zpos m) else inject_Z (Zpos m)) * bpow e));
      [symmetry; apply B2Q_finite|].
    destruct s.
    + right; right. split; [nra|]. exists (Zpos m), e, loc_Exact.
      split; [|now rewrite (binary_round_aux_self true true m e V)].
      destruct Hr as (R1 & R2 & R3). split; [assumption|]. split; [assumption|].
      cbn [shr_record_of_loc located shr_r shr_s shr_m] in *. ring.
    + right; left. split; [nra|]. exists (Zpos m), e, loc_Exact.
      split; [exact Hr|now rewrite (binary_round_aux_self false false m e V)].
Qed.

Lemma aligned_value (m : positive) (e ez : Z) :
  (ez <= e)%Z ->
  inject_Z (Zpos (fst (shl_align m e ez))) * bpow ez == inject_Z (Zpos m) * bpow e.
Proof.
  intros H. destruct (shl_align_value m e ez) as [Hm He].
  rewrite Z.min_r in He by assumption.
  rewrite Hm, He, inject_Z_mul_pow2 by lia.
  rewrite <- Qmult_assoc, <- bpow_add.
  replace (e - ez + ez)%Z with e by lia. reflexivity.
Qed.

Lemma inject_Z_cond_Zopp (s : bool) (z : Z) :
  inject_Z (cond_Zopp s z) == (if s then - inject_Z z else inject_Z z).
Proof. destruct s; cbn [cond_Zopp]; [rewrite inject_Z_opp|]; reflexivity. Qed.

(** The difference of two finite numbers is the rounding of the
    difference of their values. *)
Lemma fsub_rounding (x y : spec_float) :
  binary64 x -> binary64 y -> is_real x = true -> is_real y = true ->
  rounding_of (B2Q x - B2Q y) (fsub x y).
Proof.
  intros Vx Vy Rx Ry.
  destruct x as [sx|sx| |sx mx ex], y as [sy|sy| |sy my ey]; try discriminate.
  - left. split; [reflexivity|]. now destruct sx, sy.
  - apply (rounding_of_ext (B2Q (S754_finite (negb sy) my ey))).
    + rewrite !B2Q_finite. cbn [B2Q]. destruct sy; cbn [negb]; ring.
    + apply rounding_of_self; [exact Vy|reflexivity].
  - apply (rounding_of_ext (B2Q (S754_finite sx mx ex))).
    + cbn [B2Q]. ring.
    + apply rounding_of_self; [exact Vx|reflexivity].
  - unfold fsub, SFsub.
    eapply rounding_of_ext; [|apply binary_normalize_rounding].
    rewrite !B2Q_finite.
    unfold Z.sub at 1. rewrite inject_Z_plus, inject_Z_opp, !inject_Z_cond_Zopp.
    pose proof (aligned_value mx ex (Z.min ex ey) ltac:(lia)) as Ex.
    pose proof (aligned_value my ey (Z.min ex ey) ltac:(lia)) as Ey.
    destruct sx, sy; cbn [negb]; nra.
Qed.

(** Subtraction is monotone in its first argument and antitone in its
    second. *)
Lemma fsub_mono (x x' y y' : spec_float) :
  binary64 x -> binary64 x' -> binary64 y -> binary64 y' ->
  is_real x = true -> is_real x' = true -> is_real y = true -> is_real y' = true ->
  fleb x x' = true -> fleb y' y = true ->
  fleb (fsub x y) (fsub x' y') = true.
Proof.
  intros Vx Vx' Vy Vy' Rx Rx' Ry Ry' Hx Hy.
  pose proof (fleb_B2Q x x' Vx Vx' Rx Rx' Hx).
  pose proof (fleb_B2Q y' y Vy' Vy Ry' Ry Hy).
  apply (rounding_of_mono (B2Q x - B2Q y) (B2Q x' - B2Q y'));
    [now apply fsub_rounding|now apply fsub_rounding|lra].
Qed.

Lemma fsub_valid (x y : spec_float) :
  binary64 x -> binary64 y -> is_real x = true -> is_real y = true ->
  binary64 (fsub x y) /\ is_nan (fsub x y) = false.
Proof.
  intros Vx Vy Rx Ry. pose proof (fsub_rounding x y Vx Vy Rx Ry) as R.
  split; [eapply rounding_of_valid, R|eapply rounding_of_not_nan, R].
Qed.

Lemma inject_Z_double_lt (a b : Z) : (2 * a < b)%Z -> 2 * inject_Z a < inject_Z b.
Proof.
  intros H. change 2 with (inject_Z 2). rewrite <- inject_Z_mult, <- Zlt_Qlt. exact H.
Qed.

Lemma inject_Z_double_gt (a b : Z) : (b < 2 * a)%Z -> inject_Z b < 2 * inject_Z a.
Proof.
  intros H. change 2 with (inject_Z 2). rewrite <- inject_Z_mult, <- Zlt_Qlt. exact H.
Qed.

(** The place of a quotient with remainder [r] of a division by [d]. *)
Lemma new_location_located (d r q : Z) (e : Z) (v : Q) :
  (0 <= r < d)%Z ->
  v == (inject_Z q + inject_Z r / inject_Z d) * bpow e ->
  located (shr_record_of_loc q (new_location d r)) e v.
Proof.
  intros Hr Hv. pose proof (bpow_pos e) as P.
  assert (Pd : 0 < inject_Z d) by (rewrite <- (Zlt_Qlt 0); lia).
  assert (Erho : inject_Z r / inject_Z d * inject_Z d == inject_Z r) by (field; lra).
  assert (Lr : inject_Z r < inject_Z d) by (rewrite <- Zlt_Qlt; lia).
  revert Hv Erho. generalize (inject_Z r / inject_Z d). intros rho Hv Erho.
  assert (L1 : rho < 1) by nra.
  assert (C1 : (2 * r < d)%Z -> rho < 1 # 2).
  { intros C. apply inject_Z_double_lt in C. nra. }
  assert (C2 : (d < 2 * r)%Z -> 1 # 2 < rho).
  { intros C. apply inject_Z_double_gt in C. nra. }
  unfold new_location.
  destruct (Z.even d) eqn:Ev; unfold new_location_even, new_location_odd;
    (destruct (r =? 0)%Z eqn:E0;
     [apply Z.eqb_eq in E0; subst r;
      assert (E : rho == 0) by (change (inject_Z 0) with 0 in Erho; nra);
      unfold located; cbn [shr_record_of_loc shr_r shr_s shr_m];
      rewrite Hv, E; ring
     |apply Z.eqb_neq in E0]);
    assert (Pr : 0 < inject_Z r) by (rewrite <- (Zlt_Qlt 0); lia);
    assert (P0 : 0 < rho) by nra.
  - destruct (2 * r ?= d)%Z eqn:C;
      [apply Z.compare_eq_iff in C|rewrite Z.compare_lt_iff in C|rewrite Z.compare_gt_iff in C];
      unfold located; cbn [shr_record_of_loc shr_r shr_s shr_m].
    + assert (2 * inject_Z r == inject_Z d)
        by (rewrite <- C, inject_Z_mult; reflexivity).
      assert (Eh : rho == 1 # 2) by nra.
      rewrite Hv, Eh. reflexivity.
    + specialize (C1 C). nra.
    + specialize (C2 C). nra.
  - assert (O : (2 * r <> d)%Z).
    { intros <-. rewrite Z.even_mul in Ev. discriminate. }
    destruct (2 * r + 1 ?= d)%Z eqn:C;
      [apply Z.compare_eq_iff in C|rewrite Z.compare_lt_iff in C|rewrite Z.compare_gt_iff in C];
      unfold located; cbn [shr_record_of_loc shr_r shr_s shr_m].
    + specialize (C1 ltac:(lia)). nra.
    + specialize (C1 ltac:(lia)). nra.
    + specialize (C2 ltac:(lia)). nra.
Qed.

(** The quotient and the remainder that [SFdiv_core_binary] computes are
    ready to be rounded, and denote the quotient of the two numbers. *)
Lemma SFdiv_core_binary_rounds (m1 m2 : positive) (e1 e2 : Z) :
  rounds (fst (fst (SFdiv_core_binary prec emax (Zpos m1) e1 (Zpos m2) e2)))
         (snd (fst (SFdiv_core_binary prec emax (Zpos m1) e1 (Zpos m2) e2)))
         (snd (SFdiv_core_binary prec emax (Zpos m1) e1 (Zpos m2) e2))
         ((inject_Z (Zpos m1) * bpow e1) / (inject_Z (Zpos m2) * bpow e2)).
Proof.
  unfold SFdiv_core_binary.
  set (d1 := Zdigits2 (Zpos m1)). set (d2 := Zdigits2 (Zpos m2)).
  set (e' := Z.min (fexp prec emax (d1 + e1 - (d2 + e2))) (e1 - e2)).
  set (s := (e1 - e2 - e')%Z).
  assert (Hs : (0 <= s)%Z) by (unfold s, e'; lia).
  set (m' := match s with Zpos _ => Z.shiftl (Zpos m1) s | Z0 => Zpos m1 | Zneg _ => 0%Z end).
  assert (Hm' : m' = (Zpos m1 * 2 ^ s)%Z).
  { unfold m'. destruct s as [|p|p] eqn:Es; [cbn; lia| |lia].
    rewrite Z.shiftl_mul_pow2 by lia. reflexivity. }
  clearbody m'.
  pose proof (Z_div_mod m' (Zpos m2) ltac:(lia)) as D.
  destruct (Z.div_eucl m' (Zpos m2)) as [q r]. destruct D as [D Hr].
  cbn [fst snd].
  assert (P2s : (0 < 2 ^ s)%Z) by (apply Z.pow_pos_nonneg; lia).
  assert (Hq : (0 <= q)%Z) by nia.
  split; [exact Hq|]. split.
  - (* the exponent is below the one of the format *)
    assert (Hd : (d1 - d2 + s <= Zdigits2 q)%Z).
    { apply Zdigits2_ge_of_pow_le.
      destruct (Z_lt_ge_dec (d1 - d2 + s - 1) 0) as [Neg|Pos].
      - rewrite Z.pow_neg_r by assumption. exact Hq.
      - pose proof (Zdigits2_lower (Zpos m1) ltac:(lia)) as L1.
        pose proof (Zdigits2_upper (Zpos m2) ltac:(lia)) as U2.
        pose proof (Zdigits2_pos (Zpos m1) ltac:(lia)) as P1.
        pose proof (Zdigits2_pos (Zpos m2) ltac:(lia)) as P2.
        fold d1 in L1, P1. fold d2 in U2, P2.
        assert (E : (2 ^ (d1 - 1) * 2 ^ s = 2 ^ (d1 - d2 + s - 1) * 2 ^ d2)%Z).
        { rewrite <- !Z.pow_add_r by lia. f_equal. lia. }
        assert (Pk : (0 < 2 ^ (d1 - d2 + s - 1))%Z) by (apply Z.pow_pos_nonneg; lia).
        assert (T : (2 ^ (d1 - d2 + s - 1) * Zpos m2 < Zpos m2 * (q + 1))%Z) by nia.
        nia. }
    unfold target. unfold s in Hd. unfold e' at 1.
    pose proof (fexp_mono (d1 + e1 - (d2 + e2)) (Zdigits2 q + e') ltac:(lia)). lia.
  - apply new_location_located; [lia|].
    assert (Pm2 : 0 < inject_Z (Zpos m2)) by apply inject_Z_pos_lt.
    pose proof (bpow_pos e2) as Pe2. pose proof (bpow_pos e') as Pe'.
    assert (E1 : bpow e1 == bpow s * bpow e' * bpow e2).
    { rewrite <- !bpow_add. replace (s + e' + e2)%Z with e1 by (unfold s; lia).
      reflexivity. }
    assert (E2 : inject_Z (Zpos m1) * bpow s == inject_Z (Zpos m2) * inject_Z q + inject_Z r).
    { rewrite <- inject_Z_mul_pow2 by assumption.
      rewrite <- Hm', D, inject_Z_plus, inject_Z_mult. reflexivity. }
    rewrite E1.
    transitivity ((inject_Z (Zpos m1) * bpow s) / inject_Z (Zpos m2) * bpow e').
    + field. split; lra.
    + rewrite E2. field. lra.
Qed.

(** The quotient of a finite number by a finite non-zero number is the
    rounding of the quotient of their values. *)
Lemma fdiv_rounding (x y : spec_float) :
  is_real x = true -> is_finite y = true ->
  rounding_of (B2Q x / B2Q y) (fdiv x y).
Proof.
  intros Rx Fy.
  destruct y as [sy|sy| |sy my ey]; try discriminate.
  destruct x as [sx|sx| |sx mx ex]; try discriminate.
  - left. split; [|reflexivity]. cbn [B2Q]. unfold Qdiv. ring.
  - pose proof (SFdiv_core_binary_rounds mx my ex ey) as R.
    unfold fdiv, SFdiv.
    destruct (SFdiv_core_binary prec emax (Zpos mx) ex (Zpos my) ey) as [[mz ez] lz].
    cbn [fst snd] in R.
    pose proof (inject_Z_pos_lt mx) as Px. pose proof (inject_Z_pos_lt my) as Py.
    pose proof (bpow_pos ex) as Pex. pose proof (bpow_pos ey) as Pey.
    assert (Pw : 0 < inject_Z (Zpos mx) * bpow ex / (inject_Z (Zpos my) * bpow ey)).
    { apply Qlt_shift_div_l; nra. }
    assert (Ny : ~ inject_Z (Zpos my) * bpow ey == 0) by nra.
    assert (Ny1 : ~ inject_Z (Zpos my) == 0) by lra.
    assert (Ny2 : ~ bpow ey == 0) by lra.
    apply (rounding_of_ext
             ((if sx then - inject_Z (Zpos mx) else inject_Z (Zpos mx)) * bpow ex /
              ((if sy then - inject_Z (Zpos my) else inject_Z (Zpos my)) * bpow ey)));
      [rewrite !B2Q_finite; reflexivity|].
    destruct sx, sy; cbn [xorb].
    + right; left.
      assert (E : - inject_Z (Zpos mx) * bpow ex / (- inject_Z (Zpos my) * bpow ey)
                  == inject_Z (Zpos mx) * bpow ex / (inject_Z (Zpos my) * bpow ey))
        by (field; split; assumption).
      split; [rewrite E; exact Pw|]. exists mz, ez, lz. split; [|reflexivity].
      destruct R as (R1 & R2 & R3). repeat split; try assumption.
      unfold located in *. destruct (shr_r _), (shr_s _); rewrite E; exact R3.
    + right; right.
      assert (E : - (- inject_Z (Zpos mx) * bpow ex / (inject_Z (Zpos my) * bpow ey))
                  == inject_Z (Zpos mx) * bpow ex / (inject_Z (Zpos my) * bpow ey))
        by (field; split; assumption).
      split; [lra|]. exists mz, ez, lz. split; [|reflexivity].
      destruct R as (R1 & R2 & R3). repeat split; try assumption.
      unfold located in *. destruct (shr_r _), (shr_s _); rewrite E; exact R3.
    + right; right.
      assert (E : - (inject_Z (Zpos mx) * bpow ex / (- inject_Z (Zpos my) * bpow ey))
                  == inject_Z (Zpos mx) * bpow ex / (inject_Z (Zpos my) * bpow ey))
        by (field; split; assumption).
      split; [lra|]. exists mz, ez, lz. split; [|reflexivity].
      destruct R as (R1 & R2 & R3). repeat split; try assumption.
      unfold located in *. destruct (shr_r _), (shr_s _); rewrite E; exact R3.
    + right; left. split; [exact Pw|]. exists mz, ez, lz. split; [exact R|reflexivity].
Qed.

Lemma fleb_neg_inf (r : spec_float) : is_nan r = false -> fleb (S754_infinity true) r = true.
Proof. destruct r as [s|[|]| |[|] m e]; try discriminate; reflexivity. Qed.

Lemma fleb_pos_inf (r : spec_float) : is_nan r = false -> fleb r (S754_infinity false) = true.
Proof. destruct r as [s|[|]| |[|] m e]; try discriminate; reflexivity. Qed.

Lemma fleb_refl (x : spec_float) : is_nan x = false -> fleb x x = true.
Proof.
  destruct x as [s|[|]| |[|] m e]; try discriminate; intros _; try reflexivity;
    unfold fleb, SFleb, SFcompare; rewrite Z.compare_refl;
    change (Pos.compare_cont Eq m m) with (m ?= m)%positive;
    rewrite Pos.compare_refl; reflexivity.
Qed.

Lemma fleb_not_nan (x y : spec_float) :
  fleb x y = true -> is_nan x = false /\ is_nan y = false.
Proof. destruct x, y; try discriminate; split; reflexivity. Qed.

(** A quotient by a finite non-zero number is a well-formed number. *)
Lemma fdiv_valid (x y : spec_float) :
  binary64 x -> is_nan x = false -> is_finite y = true ->
  binary64 (fdiv x y) /\ is_nan (fdiv x y) = false.
Proof.
  intros Vx Nx Fy.
  destruct (is_real x) eqn:Rx.
  - pose proof (fdiv_rounding x y Rx Fy) as R.
    split; [eapply rounding_of_valid, R|eapply rounding_of_not_nan, R].
  - destruct y as [sy|sy| |sy my ey]; try discriminate.
    destruct x as [sx|sx| |sx mx ex]; try discriminate. split; reflexivity.
Qed.

(** Division by a positive finite number is monotone. *)
Lemma fdiv_mono_l (x x' y : spec_float) :
  binary64 x -> binary64 x' ->
  is_finite y = true -> sign_bit y = false ->
  fleb x x' = true ->
  fleb (fdiv x y) (fdiv x' y) = true.
Proof.
  intros Vx Vx' Fy Sy H.
  destruct (fleb_not_nan x x' H) as [Nx Nx'].
  destruct (fdiv_valid x y Vx Nx Fy) as [_ N].
  destruct (fdiv_valid x' y Vx' Nx' Fy) as [_ N'].
  destruct (is_real x) eqn:Rx, (is_real x') eqn:Rx'.
  - pose proof (fleb_B2Q x x' Vx Vx' Rx Rx' H) as L.
    apply (rounding_of_mono (B2Q x / B2Q y) (B2Q x' / B2Q y));
      [now apply fdiv_rounding|now apply fdiv_rounding|].
    destruct y as [sy|sy| |sy my ey]; try discriminate.
    cbn [sign_bit] in Sy. subst sy.
    assert (Py : 0 < B2Q (S754_finite false my ey)).
    { rewrite B2Q_finite. pose proof (inject_Z_pos_lt my). pose proof (bpow_pos ey). nra. }
    unfold Qdiv. apply Qmult_le_compat_r; [exact L|].
    apply Qlt_le_weak, Qinv_lt_0_compat, Py.
  - destruct y as [sy|sy| |sy my ey]; try discriminate.
    cbn [sign_bit] in Sy. subst sy.
    destruct x' as [sx'|[|]| |sx' mx' ex']; try discriminate.
    + destruct x as [sx|sx| |[|] mx ex]; discriminate.
    + apply fleb_pos_inf, N.
  - destruct y as [sy|sy| |sy my ey]; try discriminate.
    cbn [sign_bit] in Sy. subst sy.
    destruct x as [sx|[|]| |sx mx ex]; try discriminate.
    + apply fleb_neg_inf, N'.
    + destruct x' as [sx'|sx'| |[|] mx' ex']; discriminate.
  - destruct y as [sy|sy| |sy my ey]; try discriminate.
    cbn [sign_bit] in Sy. subst sy.
    destruct x as [sx|[|]| |sx mx ex], x' as [sx'|[|]| |sx' mx' ex']; try discriminate;
      reflexivity.
Qed.

Lemma cdf_step_monotone : cdf_monotone cdf_step.
Proof.
  intros x y a b Ha Hb _ _ H. unfold cdf_step.
  apply Z.ltb_lt in Ha, Hb. rewrite Ha, Hb. cbn [andb].
  destruct x as [sx|[|]| |[|] mx ex], y as [sy|[|]| |[|] my ey];
    try discriminate H; reflexivity.
Qed.

Lemma cdf_step_unit_interval : cdf_unit_interval cdf_step.
Proof.
  intros x a b Ha Hb N. unfold cdf_step.
  apply Z.ltb_lt in Ha, Hb. rewrite Ha, Hb. cbn [andb].
  destruct x as [sx|[|]| |[|] mx ex]; try discriminate N; repeat split.
Qed.

Lemma unit_interval_real (p : spec_float) :
  fleb pzero p = true -> fleb p fone = true -> is_real p = true.
Proof. destruct p as [s|[|]| |s m e]; try discriminate; reflexivity. Qed.


(** ** The divisors of a valid call *)

(** A positive [int] within the float range converts to a positive finite
    number. *)
Lemma float_of_int_pos (z : Z) :
  (0 < z)%Z -> fits_float z = true ->
  exists m e, float_of_int z = S754_finite false m e.
Proof.
  intros Hz Hf. unfold fits_float in Hf.
  pose proof (float_of_int_not_nan z) as N.
  pose proof (float_of_int_sign z) as S.
  pose proof (float_of_int_is_zero z) as Z0.
  assert (E1 : (z <? 0)%Z = false) by (apply Z.ltb_ge; lia).
  assert (E2 : (z =? 0)%Z = false) by (apply Z.eqb_neq; lia).
  rewrite E1 in S. rewrite E2 in Z0.
  destruct (float_of_int z) as [s|s| |s m e]; try discriminate.
  cbn [sign_bit] in S. subst s. now exists m, e.
Qed.

(** No call raises [ValueError]. *)
Lemma Ftest_F_no_value_error (a b : pyfloat) (d1 d2 n : Z) :
  fst (Ftest_F a b d1 d2 n) <> inl ValueError.
Proof.
  unfold Ftest_F.
  destruct (fits_float (d2 - d1)) eqn:F1;
    [|rewrite truediv_int_overflow by assumption; discriminate].
  rewrite truediv_int_fits by assumption.
  pose proof (truediv_no_value_error (sub a b) (PyFloat (float_of_int (d2 - d1)))) as [H1 _].
  destruct (truediv (sub a b) _) as [[e|num] o1]; [exact H1|]. cbn [bind].
  destruct (fits_float (n - d2)) eqn:F2;
    [|rewrite truediv_int_overflow by assumption; discriminate].
  rewrite truediv_int_fits by assumption.
  pose proof (truediv_no_value_error b (PyFloat (float_of_int (n - d2)))) as [H2 _].
  destruct (truediv b _) as [[e|den] o2]; [exact H2|]. cbn [bind].
  pose proof (truediv_no_value_error num den) as [H3 _].
  destruct (truediv num den) as [[e|F] o3]; [exact H3|]. discriminate.
Qed.

Lemma Ftest_no_value_error (f_cdf : spec_float -> Z -> Z -> spec_float)
  (a b : pyfloat) (d1 d2 n : Z) (v : bool) :
  fst (Ftest f_cdf a b d1 d2 n v) <> inl ValueError.
Proof.
  pose proof (Ftest_F_no_value_error a b d1 d2 n) as H.
  destruct (Ftest_F a b d1 d2 n) as [[e|F] out] eqn:HF.
  - unfold Ftest. rewrite HF. cbn [bind fst] in *. congruence.
  - unfold Ftest. rewrite HF. cbn [bind]. destruct v; cbn; discriminate.
Qed.

(** * The claims *)

(** C1 (amended).  For residual sums of either float type and
    [dof_simple < dof_rich < n_observations], both differences within the
    float range: provided that, when both residual sums are Python floats,
    the quotient [ssr_rich / (n_observations - dof_rich)] does not
    evaluate to zero (so for [ssr_rich] neither zero nor so small that the
    quotient underflows), the local [F] is the binary64 value of
    [((ssr_simple - ssr_rich) / (dof_rich - dof_simple)) / (ssr_rich / (n_observations - dof_rich))]
    and the call returns [1 - cdf(F, dof_rich - dof_simple, n_observations - dof_rich)]. *)
Theorem Ftest_formula (f_cdf : spec_float -> Z -> Z -> spec_float)
  (ssr_1 ssr_2 : pyfloat) (d1 d2 n : Z) (v : bool) :
  (d1 < d2)%Z -> (d2 < n)%Z ->
  fits_float (d2 - d1) = true -> fits_float (n - d2) = true ->
  (is_np ssr_1 || is_np ssr_2 = false ->
   is_zero (fdiv (value ssr_2) (float_of_int (n - d2))) = false) ->
  Ftest_F ssr_1 ssr_2 d1 d2 n
  = ret (wrap (is_np ssr_1 || is_np ssr_2)
           (F_statistic (value ssr_1) (value ssr_2) d1 d2 n)) /\
  fst (Ftest f_cdf ssr_1 ssr_2 d1 d2 n v)
  = inr (PFloat (NpFloat64
      (fsub fone
         (f_cdf (F_statistic (value ssr_1) (value ssr_2) d1 d2 n)
            (d2 - d1)%Z (n - d2)%Z)))).
Proof.
  intros Hd Hn F1 F2 Hden.
  assert (HF : Ftest_F ssr_1 ssr_2 d1 d2 n
               = ret (wrap (is_np ssr_1 || is_np ssr_2)
                        (F_statistic (value ssr_1) (value ssr_2) d1 d2 n)))
    by (apply Ftest_F_returns; auto; intros; lia).
  split; [exact HF|].
  rewrite (Ftest_returns f_cdf _ _ _ _ _ v _ HF), value_wrap. reflexivity.
Qed.

(** C2 (amended).  On the same inputs the call returns one object, the
    confidence level as a numpy float; neither [F] nor a decision is
    returned.  The decision only shows in the line printed when [verbose]
    is set, as YES when the confidence level is below 0.10 and NO
    otherwise; nothing else is written. *)
Theorem Ftest_returns_confidence_level (f_cdf : spec_float -> Z -> Z -> spec_float)
  (ssr_1 ssr_2 : pyfloat) (d1 d2 n : Z) (v : bool) :
  (d1 < d2)%Z -> (d2 < n)%Z ->
  fits_float (d2 - d1) = true -> fits_float (n - d2) = true ->
  (is_np ssr_1 || is_np ssr_2 = false ->
   is_zero (fdiv (value ssr_2) (float_of_int (n - d2))) = false) ->
  exists CL : spec_float,
    CL = fsub fone
           (f_cdf (F_statistic (value ssr_1) (value ssr_2) d1 d2 n)
              (d2 - d1)%Z (n - d2)%Z) /\
    Ftest f_cdf ssr_1 ssr_2 d1 d2 n v
    = (inr (PFloat (NpFloat64 CL)),
       if v
       then [("CL: " ++ fmt3 CL ++ " , additional parameter necessary: " ++
              (if fltb CL tenth then "YES" else "NO"))%string]
       else []).
Proof.
  intros Hd Hn F1 F2 Hden.
  assert (HF : Ftest_F ssr_1 ssr_2 d1 d2 n
               = ret (wrap (is_np ssr_1 || is_np ssr_2)
                        (F_statistic (value ssr_1) (value ssr_2) d1 d2 n)))
    by (apply Ftest_F_returns; auto; intros; lia).
  eexists. split; [reflexivity|].
  rewrite (Ftest_returns f_cdf _ _ _ _ _ v _ HF), value_wrap. reflexivity.
Qed.

(** C5 (amended).  With [ssr_rich] equal to +0.0, valid degrees of freedom
    and both differences within the float range: when one of the residual
    sums is a numpy float and the quotient
    [ssr_simple / (dof_rich - dof_simple)] evaluates to a positive number
    (so for [ssr_simple > 0] not so small that the quotient underflows),
    [F] is +inf and, the distribution function being 1 there, the
    confidence level is 0; when both are Python floats the call raises
    [ZeroDivisionError]. *)
Theorem Ftest_zero_ssr_rich (f_cdf : spec_float -> Z -> Z -> spec_float)
  (ssr_1 ssr_2 : pyfloat) (d1 d2 n : Z) (v : bool) :
  cdf_one_at_inf f_cdf ->
  value ssr_2 = pzero -> (d1 < d2)%Z -> (d2 < n)%Z ->
  fits_float (d2 - d1) = true -> fits_float (n - d2) = true ->
  (is_np ssr_1 || is_np ssr_2 = true ->
   fltb pzero (fdiv (value ssr_1) (float_of_int (d2 - d1))) = true ->
     Ftest_F ssr_1 ssr_2 d1 d2 n = ret (NpFloat64 pinf) /\
     fst (Ftest f_cdf ssr_1 ssr_2 d1 d2 n v) = inr (PFloat (NpFloat64 pzero))) /\
  (is_np ssr_1 || is_np ssr_2 = false ->
     Ftest f_cdf ssr_1 ssr_2 d1 d2 n v = raise ZeroDivisionError).
Proof.
  intros Hinf Hs Hd Hn F1 F2.
  destruct (float_of_int_pos (n - d2)) as (mb & eb & Eb); [lia|assumption|].
  split.
  - intros Hnp Hnum.
    assert (HF : Ftest_F ssr_1 ssr_2 d1 d2 n = ret (NpFloat64 pinf)).
    { rewrite Ftest_F_returns; auto; try (intros; lia); try congruence.
      rewrite Hnp. cbn [wrap]. unfold F_statistic.
      rewrite Hs, fsub_pzero_r, Eb.
      destruct (fdiv (value ssr_1) (float_of_int (d2 - d1))) as [s|[|]| |[|] m e];
        try discriminate Hnum; reflexivity. }
    split; [exact HF|].
    rewrite (Ftest_returns f_cdf _ _ _ _ _ v _ HF). cbn [fst value].
    rewrite Hinf by lia. reflexivity.
  - intros Hnp. apply orb_false_elim in Hnp as [H1 H2].
    destruct ssr_1 as [x|x], ssr_2 as [y|y]; try discriminate.
    cbn [value] in Hs. subst y.
    apply Ftest_raises. apply Ftest_F_third_zero; try assumption.
    now rewrite Eb.
Qed.

(** C6 (amended).  With [ssr_simple == ssr_rich > 0] finite, valid degrees
    of freedom and both differences within the float range: provided the
    quotient [ssr_rich / (n_observations - dof_rich)] does not evaluate to
    zero (it underflows for the smallest [ssr_rich]), [F] is +0.0 and, the
    distribution function being 0 there, the confidence level is 1. *)
Theorem Ftest_equal_ssr (f_cdf : spec_float -> Z -> Z -> spec_float)
  (ssr_1 ssr_2 : pyfloat) (d1 d2 n : Z) (v : bool) :
  cdf_zero_at_zero f_cdf ->
  value ssr_1 = value ssr_2 ->
  is_finite (value ssr_2) = true -> sign_bit (value ssr_2) = false ->
  (d1 < d2)%Z -> (d2 < n)%Z ->
  fits_float (d2 - d1) = true -> fits_float (n - d2) = true ->
  is_zero (fdiv (value ssr_2) (float_of_int (n - d2))) = false ->
  Ftest_F ssr_1 ssr_2 d1 d2 n = ret (wrap (is_np ssr_1 || is_np ssr_2) pzero) /\
  fst (Ftest f_cdf ssr_1 ssr_2 d1 d2 n v) = inr (PFloat (NpFloat64 fone)).
Proof.
  intros Hzero Heq Hfin Hsign Hd Hn F1 F2 Hden.
  destruct (float_of_int_pos (d2 - d1)) as (ma & ea & Ea); [lia|assumption|].
  destruct (float_of_int_pos (n - d2)) as (mb & eb & Eb); [lia|assumption|].
  assert (HF : Ftest_F ssr_1 ssr_2 d1 d2 n
               = ret (wrap (is_np ssr_1 || is_np ssr_2) pzero)).
  { rewrite Ftest_F_returns; auto; try (intros; lia).
    f_equal. f_equal. unfold F_statistic.
    rewrite Heq, fsub_self by (now rewrite Hfin).
    rewrite Ea. rewrite Eb in Hden |- *.
    destruct (value ssr_2) as [s|s| |s m e]; try discriminate Hfin.
    cbn [sign_bit] in Hsign. subst s.
    pose proof (fdiv_finite false false m mb e eb) as [N S].
    destruct (fdiv (S754_finite false m e) (S754_finite false mb eb))
      as [s|s| |s m' e']; try discriminate; cbn [sign_bit xorb] in S; subst s;
      reflexivity. }
  split; [exact HF|].
  rewrite (Ftest_returns f_cdf _ _ _ _ _ v _ HF), value_wrap. cbn [fst].
  rewrite Hzero by lia. reflexivity.
Qed.

(** C7 (amended).  With well-formed finite [ssr_simple], [ssr_simple'] and
    [ssr_rich > 0], valid degrees of freedom and both differences within
    the float range: provided the quotient
    [ssr_rich / (n_observations - dof_rich)] evaluates to a non-zero finite
    number (it underflows to zero for the smallest [ssr_rich]), and for a
    distribution function that is monotone with values between 0 and 1,
    both calls return a confidence level, and the level of the call with
    the larger residual improvement [ssr_simple - ssr_rich], as the code
    computes it, is the smaller or the same.  The improvement grows with
    [ssr_simple]. *)
Theorem Ftest_level_monotone (f_cdf : spec_float -> Z -> Z -> spec_float)
  (a a' b : pyfloat) (d1 d2 n : Z) (v v' : bool) :
  cdf_monotone f_cdf -> cdf_unit_interval f_cdf ->
  binary64 (value a) -> binary64 (value a') -> binary64 (value b) ->
  is_real (value a) = true -> is_real (value a') = true ->
  is_finite (value b) = true -> sign_bit (value b) = false ->
  (d1 < d2)%Z -> (d2 < n)%Z ->
  fits_float (d2 - d1) = true -> fits_float (n - d2) = true ->
  is_finite (fdiv (value b) (float_of_int (n - d2))) = true ->
  (fleb (value a) (value a') = true ->
   fleb (fsub (value a) (value b)) (fsub (value a') (value b)) = true) /\
  (fleb (fsub (value a) (value b)) (fsub (value a') (value b)) = true ->
   exists c c' : spec_float,
     fst (Ftest f_cdf a b d1 d2 n v) = inr (PFloat (NpFloat64 c)) /\
     fst (Ftest f_cdf a' b d1 d2 n v') = inr (PFloat (NpFloat64 c')) /\
     fleb c' c = true).
Proof.
  intros Hmono Hunit Va Va' Vb Ra Ra' Fb Sb Hd Hn F1 F2 Hden.
  assert (Rb : is_real (value b) = true) by (unfold is_real; now rewrite Fb).
  split.
  { intros H. apply fsub_mono; try assumption.
    apply fleb_refl. now destruct (value b). }
  intros HD.
  destruct (float_of_int_pos (d2 - d1)) as (ma & ea & Ea); [lia|assumption|].
  destruct (float_of_int_pos (n - d2)) as (mb & eb & Eb); [lia|assumption|].
  assert (Zden : is_zero (fdiv (value b) (float_of_int (n - d2))) = false).
  { destruct (fdiv (value b) (float_of_int (n - d2))); try discriminate; reflexivity. }
  assert (Sden : sign_bit (fdiv (value b) (float_of_int (n - d2))) = false).
  { rewrite fdiv_sign.
    - rewrite Sb, Eb. reflexivity.
    - destruct (fdiv (value b) (float_of_int (n - d2))); try discriminate; reflexivity. }
  assert (HF : forall x : pyfloat,
             Ftest_F x b d1 d2 n
             = ret (wrap (is_np x || is_np b) (F_statistic (value x) (value b) d1 d2 n))).
  { intros x. apply Ftest_F_returns; auto; intros; lia. }
  exists (fsub fone (f_cdf (F_statistic (value a) (value b) d1 d2 n) (d2 - d1)%Z (n - d2)%Z)),
         (fsub fone (f_cdf (F_statistic (value a') (value b) d1 d2 n) (d2 - d1)%Z (n - d2)%Z)).
  rewrite (Ftest_returns f_cdf _ _ _ _ _ v _ (HF a)), value_wrap.
  rewrite (Ftest_returns f_cdf _ _ _ _ _ v' _ (HF a')), value_wrap.
  split; [reflexivity|]. split; [reflexivity|].
  unfold F_statistic.
  destruct (fsub_valid (value a) (value b) Va Vb Ra Rb) as [VD ND].
  destruct (fsub_valid (value a') (value b) Va' Vb Ra' Rb) as [VD' ND'].
  set (D := fsub (value a) (value b)) in *.
  set (D' := fsub (value a') (value b)) in *.
  set (k := float_of_int (d2 - d1)) in *.
  set (den := fdiv (value b) (float_of_int (n - d2))) in *.
  assert (Fk : is_finite k = true) by (now rewrite Ea).
  assert (Sk : sign_bit k = false) by (now rewrite Ea).
  destruct (fdiv_valid D k VD ND Fk) as [Vn Nn].
  destruct (fdiv_valid D' k VD' ND' Fk) as [Vn' Nn'].
  pose proof (fdiv_mono_l D D' k VD VD' Fk Sk HD) as Hnum.
  destruct (fdiv_valid (fdiv D k) den Vn Nn Hden) as [VF NF].
  destruct (fdiv_valid (fdiv D' k) den Vn' Nn' Hden) as [VF' NF'].
  pose proof (fdiv_mono_l (fdiv D k) (fdiv D' k) den Vn Vn' Hden Sden Hnum) as HFF.
  pose proof (Hmono _ _ (d2 - d1)%Z (n - d2)%Z ltac:(lia) ltac:(lia) VF VF' HFF) as Hp.
  destruct (Hunit (fdiv (fdiv D k) den) (d2 - d1)%Z (n - d2)%Z ltac:(lia) ltac:(lia) NF)
    as (Vp & P0 & P1).
  destruct (Hunit (fdiv (fdiv D' k) den) (d2 - d1)%Z (n - d2)%Z ltac:(lia) ltac:(lia) NF')
    as (Vp' & P0' & P1').
  apply fsub_mono; try assumption; try reflexivity;
    now apply unit_interval_real.
Qed.

(** C8 (amended).  With well-formed [0 <= ssr_simple < ssr_rich < inf],
    valid degrees of freedom and both differences within the float range:
    provided the quotient [ssr_rich / (n_observations - dof_rich)]
    evaluates to a non-zero finite number (it underflows to zero for the
    smallest [ssr_rich]), no error is raised, [F] is negative or, when it
    underflows, -0.0, and, the distribution function being 0 there, the
    confidence level returned is 1. *)
Theorem Ftest_negative_F (f_cdf : spec_float -> Z -> Z -> spec_float)
  (ssr_1 ssr_2 : pyfloat) (d1 d2 n : Z) (v : bool) :
  cdf_zero_below f_cdf ->
  binary64 (value ssr_1) -> binary64 (value ssr_2) ->
  sign_bit (value ssr_1) = false -> is_finite (value ssr_2) = true ->
  fltb (value ssr_1) (value ssr_2) = true ->
  (d1 < d2)%Z -> (d2 < n)%Z ->
  fits_float (d2 - d1) = true -> fits_float (n - d2) = true ->
  is_finite (fdiv (value ssr_2) (float_of_int (n - d2))) = true ->
  sign_bit (F_statistic (value ssr_1) (value ssr_2) d1 d2 n) = true /\
  Ftest_F ssr_1 ssr_2 d1 d2 n
  = ret (wrap (is_np ssr_1 || is_np ssr_2)
           (F_statistic (value ssr_1) (value ssr_2) d1 d2 n)) /\
  fst (Ftest f_cdf ssr_1 ssr_2 d1 d2 n v) = inr (PFloat (NpFloat64 fone)).
Proof.
  intros Hneg V1 V2 S1 Fin2 Hlt Hd Hn F1 F2 Hden.
  destruct (float_of_int_pos (d2 - d1)) as (ma & ea & Ea); [lia|assumption|].
  destruct (float_of_int_pos (n - d2)) as (mb & eb & Eb); [lia|assumption|].
  destruct (fsub_lt _ _ V1 V2 S1 Fin2 Hlt) as (DZ & DN & DS).
  assert (S2 : sign_bit (value ssr_2) = false).
  { destruct (value ssr_1) as [s|s| |s m e], (value ssr_2) as [t|t| |t m' e'];
      cbn [sign_bit] in S1 |- *; subst; try discriminate; now destruct t. }
  assert (HS : sign_bit (F_statistic (value ssr_1) (value ssr_2) d1 d2 n) = true).
  { unfold F_statistic. rewrite Ea. rewrite Eb in Hden |- *.
    set (D := fsub (value ssr_1) (value ssr_2)) in *.
    set (den := fdiv (value ssr_2) (S754_finite false mb eb)) in *.
    assert (Nnum : is_nan (fdiv D (S754_finite false ma ea)) = false).
    { rewrite fdiv_nan, DN, DZ. cbn. now rewrite andb_false_r. }
    assert (Nden : is_nan den = false) by (now destruct den).
    assert (Sden : sign_bit den = false).
    { subst den. rewrite fdiv_sign by assumption. now rewrite S2. }
    assert (NF : is_nan (fdiv (fdiv D (S754_finite false ma ea)) den) = false).
    { rewrite fdiv_nan, Nnum, Nden. destruct den; try discriminate Hden.
      cbn. now rewrite !andb_false_r. }
    rewrite fdiv_sign by assumption.
    rewrite fdiv_sign by assumption.
    rewrite DS, Sden. reflexivity. }
  assert (HF : Ftest_F ssr_1 ssr_2 d1 d2 n
               = ret (wrap (is_np ssr_1 || is_np ssr_2)
                        (F_statistic (value ssr_1) (value ssr_2) d1 d2 n))).
  { apply Ftest_F_returns; auto; try (intros; lia).
    intros _. now destruct (fdiv (value ssr_2) (float_of_int (n - d2))). }
  split; [exact HS|]. split; [exact HF|].
  rewrite (Ftest_returns f_cdf _ _ _ _ _ v _ HF), value_wrap. cbn [fst].
  rewrite Hneg by (lia || assumption). reflexivity.
Qed.

(** C9.  For [ssr_simple = 120.0], [ssr_rich = 80.0], [dof_simple = 1],
    [dof_rich = 2], [n_observations = 100] the F statistic is exactly 49,
    for Python floats and for numpy floats, and so is the rational value
    of the formula. *)
Theorem Ftest_F_scenario :
  Ftest_F (PyFloat (float_of_int 120)) (PyFloat (float_of_int 80)) 1 2 100
  = ret (PyFloat (float_of_int 49)) /\
  Ftest_F (NpFloat64 (float_of_int 120)) (NpFloat64 (float_of_int 80)) 1 2 100
  = ret (NpFloat64 (float_of_int 49)) /\
  F_formula 120 80 1 2 100 == 49.
Proof. repeat split; vm_compute; reflexivity. Qed.

(** The same scenario on the floats of the machine: the three roundings
    leave 49.0 exactly. *)
Remark F_binary64_scenario :
  F_binary64 120%float 80%float 1 2 100 = Some 49%float.
Proof. vm_compute. reflexivity. Qed.

(** The expression on the floats of the machine and [F_statistic] agree,
    in the scenario, where [ssr_2 / 2] underflows ([F] is +inf), where a
    result is rounded, and where the numerator underflows. *)
Remark F_binary64_agrees :
  option_map FloatOps.Prim2SF (F_binary64 120%float 80%float 1 2 100)
  = Some (F_statistic (float_of_int 120) (float_of_int 80) 1 2 100) /\
  option_map FloatOps.Prim2SF (F_binary64 1%float 0x1p-1074%float 1 3 5)
  = Some (F_statistic fone tiny 1 3 5) /\
  option_map FloatOps.Prim2SF (F_binary64 10%float 3%float 1 2 9)
  = Some (F_statistic (float_of_int 10) (float_of_int 3) 1 2 9) /\
  option_map FloatOps.Prim2SF (F_binary64 0x1p-1073%float 0x1p-1074%float 1 3 4)
  = Some (F_statistic (dyadic 1 (-1073)) tiny 1 3 4).
Proof. repeat split; vm_compute; reflexivity. Qed.

(** The float range of an [int]: the largest one that converts is
    [2^1024 - 2^970 - 1], which rounds to the largest float. *)
Remark fits_float_boundary :
  fits_float (2 ^ 1024 - 2 ^ 970 - 1) = true /\
  fits_float (2 ^ 1024 - 2 ^ 970) = false /\
  fits_float (- (2 ^ 1024 - 2 ^ 970)) = false /\
  of_int (10 ^ 400) = raise OverflowError.
Proof. repeat split; vm_compute; reflexivity. Qed.

(** C10.  Whatever the arguments, the calls with [verbose=True] and with
    [verbose=False] end the same way (same confidence level, or same
    exception); the call with [verbose=False], the default, writes nothing
    to standard output; the call with [verbose=True] writes exactly one
    line, which carries the decision, when a confidence level is returned
    and nothing when the call raises. *)
Theorem Ftest_verbose_independent (f_cdf : spec_float -> Z -> Z -> spec_float)
  (ssr_1 ssr_2 : pyfloat) (ndof_1 ndof_2 nbins : Z) :
  fst (Ftest f_cdf ssr_1 ssr_2 ndof_1 ndof_2 nbins true)
  = fst (Ftest f_cdf ssr_1 ssr_2 ndof_1 ndof_2 nbins false) /\
  snd (Ftest f_cdf ssr_1 ssr_2 ndof_1 ndof_2 nbins false) = [] /\
  match fst (Ftest f_cdf ssr_1 ssr_2 ndof_1 ndof_2 nbins false) with
  | inr (PFloat CL) =>
      snd (Ftest f_cdf ssr_1 ssr_2 ndof_1 ndof_2 nbins true)
      = [("CL: " ++ fmt3 (value CL) ++ " , additional parameter necessary: " ++
          (if fltb (value CL) tenth then "YES" else "NO"))%string]
  | _ => snd (Ftest f_cdf ssr_1 ssr_2 ndof_1 ndof_2 nbins true) = []
  end.
Proof.
  pose proof (Ftest_F_silent ssr_1 ssr_2 ndof_1 ndof_2 nbins) as Hout.
  destruct (Ftest_F ssr_1 ssr_2 ndof_1 ndof_2 nbins) as [[e|F] out] eqn:HF;
    cbn [snd] in Hout; subst out.
  - rewrite !(Ftest_raises f_cdf _ _ _ _ _ _ e HF). now cbn.
  - rewrite !(Ftest_returns f_cdf _ _ _ _ _ _ F HF). now cbn.
Qed.

(** C3 (amended).  The comparator has no check of its own on the nesting
    and never raises an invalid-input error.  With
    [dof_rich <= dof_simple] (and [dof_rich < n_observations]):
    - [dof_rich = dof_simple], both residual sums Python floats: the first
      division raises [ZeroDivisionError];
    - [dof_rich = dof_simple], one of them a numpy float,
      [n_observations - dof_rich] within the float range: no exception;
      [F] is NaN or an infinity and the call returns 1 minus the
      distribution function at [F] with zero degrees of freedom;
    - [dof_rich < dof_simple], both differences within the float range
      and, for two Python floats, a quotient
      [ssr_rich / (n_observations - dof_rich)] that does not evaluate to
      zero: no exception; [F] is the binary64 value of the formula and the
      call returns 1 minus the distribution function at [F] with a
      negative first number of degrees of freedom. *)
Theorem Ftest_no_nesting_check (f_cdf : spec_float -> Z -> Z -> spec_float)
  (ssr_1 ssr_2 : pyfloat) (d1 d2 n : Z) (v : bool) :
  (d2 <= d1)%Z -> (d2 < n)%Z ->
  fst (Ftest f_cdf ssr_1 ssr_2 d1 d2 n v) <> inl ValueError /\
  (d2 = d1 -> is_np ssr_1 || is_np ssr_2 = false ->
     Ftest f_cdf ssr_1 ssr_2 d1 d2 n v = raise ZeroDivisionError) /\
  (d2 = d1 -> is_np ssr_1 || is_np ssr_2 = true ->
   fits_float (n - d2) = true ->
     (is_inf (F_statistic (value ssr_1) (value ssr_2) d1 d2 n)
      || is_nan (F_statistic (value ssr_1) (value ssr_2) d1 d2 n) = true) /\
     fst (Ftest f_cdf ssr_1 ssr_2 d1 d2 n v)
     = inr (PFloat (NpFloat64
         (fsub fone
            (f_cdf (F_statistic (value ssr_1) (value ssr_2) d1 d2 n)
               0%Z (n - d2)%Z))))) /\
  ((d2 < d1)%Z ->
   fits_float (d2 - d1) = true -> fits_float (n - d2) = true ->
   (is_np ssr_1 || is_np ssr_2 = false ->
    is_zero (fdiv (value ssr_2) (float_of_int (n - d2))) = false) ->
     fst (Ftest f_cdf ssr_1 ssr_2 d1 d2 n v)
     = inr (PFloat (NpFloat64
         (fsub fone
            (f_cdf (F_statistic (value ssr_1) (value ssr_2) d1 d2 n)
               (d2 - d1)%Z (n - d2)%Z))))).
Proof.
  intros Hd Hn. split; [|split; [|split]].
  - apply Ftest_no_value_error.
  - intros -> Hnp. apply orb_false_elim in Hnp as [H1 H2].
    destruct ssr_1 as [x|x], ssr_2 as [y|y]; try discriminate.
    apply Ftest_raises, Ftest_F_first_zero.
  - intros -> Hnp F2. split.
    + unfold F_statistic. rewrite Z.sub_diag.
      apply fdiv_inf_dividend, fdiv_zero_divisor. reflexivity.
    + assert (HF : Ftest_F ssr_1 ssr_2 d1 d1 n
                   = ret (wrap (is_np ssr_1 || is_np ssr_2)
                            (F_statistic (value ssr_1) (value ssr_2) d1 d1 n))).
      { apply Ftest_F_returns; auto; try (intros; lia).
        - now rewrite Z.sub_diag.
        - intros E. rewrite E in Hnp. discriminate.
        - intros E. rewrite E in Hnp. discriminate. }
      rewrite (Ftest_returns f_cdf _ _ _ _ _ v _ HF), value_wrap, Z.sub_diag.
      reflexivity.
  - intros Hlt F1 F2 Hden.
    assert (HF : Ftest_F ssr_1 ssr_2 d1 d2 n
                 = ret (wrap (is_np ssr_1 || is_np ssr_2)
                          (F_statistic (value ssr_1) (value ssr_2) d1 d2 n)))
      by (apply Ftest_F_returns; auto; intros; lia).
    rewrite (Ftest_returns f_cdf _ _ _ _ _ v _ HF), value_wrap. reflexivity.
Qed.

(** C4 (amended).  The comparator has no check of its own on the number of
    observations and never raises an invalid-input error.  With
    [n_observations <= dof_rich] (and [dof_simple < dof_rich], their
    difference within the float range):
    - [n_observations = dof_rich], [ssr_rich] a Python float: the second
      division raises [ZeroDivisionError];
    - [n_observations = dof_rich], [ssr_rich] a numpy float: no exception;
      [F] is a zero or NaN and the call returns 1 minus the distribution
      function at [F] with zero degrees of freedom in the denominator;
    - [n_observations < dof_rich], the difference within the float range
      and, for two Python floats, a quotient
      [ssr_rich / (n_observations - dof_rich)] that does not evaluate to
      zero: no exception; [F] is the binary64 value of the formula and the
      call returns 1 minus the distribution function at [F] with a
      negative second number of degrees of freedom. *)
Theorem Ftest_no_sample_size_check (f_cdf : spec_float -> Z -> Z -> spec_float)
  (ssr_1 ssr_2 : pyfloat) (d1 d2 n : Z) (v : bool) :
  (d1 < d2)%Z -> (n <= d2)%Z -> fits_float (d2 - d1) = true ->
  fst (Ftest f_cdf ssr_1 ssr_2 d1 d2 n v) <> inl ValueError /\
  (n = d2 -> is_np ssr_2 = false ->
     Ftest f_cdf ssr_1 ssr_2 d1 d2 n v = raise ZeroDivisionError) /\
  (n = d2 -> is_np ssr_2 = true ->
     (is_zero (F_statistic (value ssr_1) (value ssr_2) d1 d2 n)
      || is_nan (F_statistic (value ssr_1) (value ssr_2) d1 d2 n) = true) /\
     fst (Ftest f_cdf ssr_1 ssr_2 d1 d2 n v)
     = inr (PFloat (NpFloat64
         (fsub fone
            (f_cdf (F_statistic (value ssr_1) (value ssr_2) d1 d2 n)
               (d2 - d1)%Z 0%Z))))) /\
  ((n < d2)%Z -> fits_float (n - d2) = true ->
   (is_np ssr_1 || is_np ssr_2 = false ->
    is_zero (fdiv (value ssr_2) (float_of_int (n - d2))) = false) ->
     fst (Ftest f_cdf ssr_1 ssr_2 d1 d2 n v)
     = inr (PFloat (NpFloat64
         (fsub fone
            (f_cdf (F_statistic (value ssr_1) (value ssr_2) d1 d2 n)
               (d2 - d1)%Z (n - d2)%Z))))).
Proof.
  intros Hd Hn F1. split; [|split; [|split]].
  - apply Ftest_no_value_error.
  - intros -> Hnp. destruct ssr_2 as [y|y]; try discriminate.
    apply Ftest_raises, Ftest_F_second_zero. assumption.
  - intros -> Hnp. destruct ssr_2 as [y|y]; try discriminate. split.
    + unfold F_statistic. rewrite Z.sub_diag.
      apply fdiv_inf_divisor, fdiv_zero_divisor. reflexivity.
    + pose proof (Ftest_F_numpy ssr_1 y d1 d2 d2 F1) as HF.
      rewrite Z.sub_diag in HF. specialize (HF eq_refl).
      rewrite (Ftest_returns f_cdf _ _ _ _ _ v _ HF), Z.sub_diag.
      reflexivity.
  - intros Hlt F2 Hden.
    assert (HF : Ftest_F ssr_1 ssr_2 d1 d2 n
                 = ret (wrap (is_np ssr_1 || is_np ssr_2)
                          (F_statistic (value ssr_1) (value ssr_2) d1 d2 n)))
      by (apply Ftest_F_returns; auto; intros; lia).
    rewrite (Ftest_returns f_cdf _ _ _ _ _ v _ HF), value_wrap. reflexivity.
Qed.

(** * Runs of the comparator *)

(** C1, as stated, fails: [ssr_simple = 3.0], [ssr_rich = 0.0] (Python
    floats), [dof_simple = 1], [dof_rich = 2], [n_observations = 10]
    satisfy the preconditions, and the call raises instead of computing a
    confidence level.  So does the call with [ssr_simple = 1.0],
    [ssr_rich = 5e-324], [dof_simple = 1], [dof_rich = 3],
    [n_observations = 5], where [ssr_rich / 2] underflows to zero. *)
Lemma Ftest_formula_counterexample :
  fleb pzero (float_of_int 3) = true /\ fleb pzero pzero = true /\
  (1 < 2)%Z /\ (2 < 10)%Z /\
  Ftest cdf_ratio (PyFloat (float_of_int 3)) (PyFloat pzero) 1 2 10 false
  = raise ZeroDivisionError /\
  ~ (exists F : spec_float,
       fst (Ftest cdf_ratio (PyFloat (float_of_int 3)) (PyFloat pzero) 1 2 10 false)
       = inr (PFloat (NpFloat64 (fsub fone (cdf_ratio F (2 - 1) (10 - 2)))))) /\
  fltb pzero tiny = true /\
  Ftest cdf_ratio (PyFloat (float_of_int 1)) (PyFloat tiny) 1 3 5 false
  = raise ZeroDivisionError.
Proof.
  repeat split; try lia; try (vm_compute; reflexivity).
  intros [F H]. vm_compute in H. discriminate H.
Qed.

(** C2, as stated, fails: for [ssr_simple = 120.0], [ssr_rich = 80.0],
    [dof_simple = 1], [dof_rich = 3], [n_observations = 5] the call
    returns a float, not a triple, and writes nothing. *)
Lemma Ftest_triple_counterexample :
  Ftest cdf_ratio (PyFloat (float_of_int 120)) (PyFloat (float_of_int 80)) 1 3 5 false
  = (inr (PFloat (NpFloat64 (fsub fone (cdf_ratio (dyadic 1 (-1)) 2 2)))), []) /\
  ~ (exists F CL decision,
       fst (Ftest cdf_ratio (PyFloat (float_of_int 120)) (PyFloat (float_of_int 80))
              1 3 5 false)
       = inr (PTuple [F; CL; PStr decision])).
Proof.
  split; [vm_compute; reflexivity|].
  intros (F & CL & d & H). vm_compute in H. discriminate H.
Qed.

(** C3, as stated, fails: for [dof_simple = 2], [dof_rich = 1] (and
    [ssr_simple = 120.0], [ssr_rich = 80.0], [n_observations = 100]) the
    call raises nothing; [F] is -49.5 and the result is 1 minus the
    distribution function at [F] with -1 and 99 degrees of freedom. *)
Lemma Ftest_nesting_counterexample :
  (1 <= 2)%Z /\
  Ftest_F (PyFloat (float_of_int 120)) (PyFloat (float_of_int 80)) 2 1 100
  = ret (PyFloat (dyadic (-99) (-1))) /\
  Ftest cdf_ratio (PyFloat (float_of_int 120)) (PyFloat (float_of_int 80)) 2 1 100 false
  = (inr (PFloat (NpFloat64
       (fsub fone (cdf_ratio (dyadic (-99) (-1)) (-1) 99)))), []) /\
  fst (Ftest cdf_ratio (PyFloat (float_of_int 120)) (PyFloat (float_of_int 80))
         2 1 100 false)
  <> inl ValueError.
Proof.
  repeat split; try lia; try (vm_compute; reflexivity).
  vm_compute. discriminate.
Qed.

(** C4, as stated, fails: for [n_observations = 1], [dof_rich = 2] (and
    [ssr_simple = 120.0], [ssr_rich = 80.0], [dof_simple = 1]) the call
    raises nothing; [F] is -0.5 and the result is 1 minus the distribution
    function at [F] with 1 and -1 degrees of freedom. *)
Lemma Ftest_sample_size_counterexample :
  (1 <= 2)%Z /\
  Ftest_F (PyFloat (float_of_int 120)) (PyFloat (float_of_int 80)) 1 2 1
  = ret (PyFloat (dyadic (-1) (-1))) /\
  Ftest cdf_ratio (PyFloat (float_of_int 120)) (PyFloat (float_of_int 80)) 1 2 1 false
  = (inr (PFloat (NpFloat64
       (fsub fone (cdf_ratio (dyadic (-1) (-1)) 1 (-1))))), []) /\
  fst (Ftest cdf_ratio (PyFloat (float_of_int 120)) (PyFloat (float_of_int 80))
         1 2 1 false)
  <> inl ValueError.
Proof.
  repeat split; try lia; try (vm_compute; reflexivity).
  vm_compute. discriminate.
Qed.

(** C5, as stated, fails: for [ssr_simple = 1.0], [ssr_rich = 0.0] (Python
    floats), [dof_simple = 1], [dof_rich = 3], [n_observations = 5] the
    division that defines [F] raises [ZeroDivisionError]; no [F] and no
    confidence level come out.  And for numpy floats with
    [ssr_simple = 5e-324] the numerator underflows to zero and [F] is NaN,
    not +inf. *)
Lemma Ftest_zero_ssr_rich_counterexample :
  Ftest_F (PyFloat (float_of_int 1)) (PyFloat pzero) 1 3 5 = raise ZeroDivisionError /\
  Ftest cdf_ratio (PyFloat (float_of_int 1)) (PyFloat pzero) 1 3 5 false
  = raise ZeroDivisionError /\
  fst (Ftest cdf_ratio (PyFloat (float_of_int 1)) (PyFloat pzero) 1 3 5 false)
  <> inr (PFloat (NpFloat64 pzero)) /\
  Ftest_F (NpFloat64 tiny) (NpFloat64 pzero) 1 3 5 = ret (NpFloat64 S754_nan).
Proof.
  repeat split; try (vm_compute; reflexivity).
  vm_compute. discriminate.
Qed.

(** C6, as stated, fails: for [ssr_simple = ssr_rich = 0.0],
    [dof_simple = 1], [dof_rich = 3], [n_observations = 5] the call raises
    [ZeroDivisionError] on Python floats, and on numpy floats [F] is NaN,
    not 0.  The same happens for [ssr_simple = ssr_rich = 5e-324]. *)
Lemma Ftest_equal_ssr_counterexample :
  Ftest cdf_ratio (PyFloat pzero) (PyFloat pzero) 1 3 5 false
  = raise ZeroDivisionError /\
  Ftest_F (NpFloat64 pzero) (NpFloat64 pzero) 1 3 5 = ret (NpFloat64 S754_nan) /\
  fst (Ftest cdf_ratio (PyFloat pzero) (PyFloat pzero) 1 3 5 false)
  <> inr (PFloat (NpFloat64 fone)) /\
  Ftest cdf_ratio (PyFloat tiny) (PyFloat tiny) 1 3 5 false
  = raise ZeroDivisionError /\
  Ftest_F (NpFloat64 tiny) (NpFloat64 tiny) 1 3 5 = ret (NpFloat64 S754_nan).
Proof.
  repeat split; try (vm_compute; reflexivity).
  vm_compute. discriminate.
Qed.

(** C7, as stated, fails: [ssr_rich = 0.0] is a valid input, and with
    [dof_simple = 1], [dof_rich = 3], [n_observations = 5] the residual
    improvement grows from 0 to 1 between [ssr_simple = 0.0] and
    [ssr_simple = 1.0].  On Python floats neither call returns a
    confidence level: both raise [ZeroDivisionError].  On numpy floats the
    first level is NaN and the second is 0, and NaN is not ordered with
    any number.  The same happens for [ssr_rich = 5e-324], where
    [ssr_rich / 2] underflows. *)
Lemma Ftest_level_monotone_counterexample :
  fleb (fsub pzero pzero) (fsub fone pzero) = true /\
  Ftest cdf_ratio (PyFloat pzero) (PyFloat pzero) 1 3 5 false
  = raise ZeroDivisionError /\
  Ftest cdf_ratio (PyFloat fone) (PyFloat pzero) 1 3 5 false
  = raise ZeroDivisionError /\
  fst (Ftest cdf_ratio (NpFloat64 pzero) (NpFloat64 pzero) 1 3 5 false)
  = inr (PFloat (NpFloat64 S754_nan)) /\
  fst (Ftest cdf_ratio (NpFloat64 fone) (NpFloat64 pzero) 1 3 5 false)
  = inr (PFloat (NpFloat64 pzero)) /\
  ~ (exists c c' : spec_float,
       fst (Ftest cdf_ratio (NpFloat64 pzero) (NpFloat64 pzero) 1 3 5 false)
       = inr (PFloat (NpFloat64 c)) /\
       fst (Ftest cdf_ratio (NpFloat64 fone) (NpFloat64 pzero) 1 3 5 false)
       = inr (PFloat (NpFloat64 c')) /\
       fleb c' c = true) /\
  fleb (fsub tiny tiny) (fsub fone tiny) = true /\
  fst (Ftest cdf_ratio (NpFloat64 tiny) (NpFloat64 tiny) 1 3 5 false)
  = inr (PFloat (NpFloat64 S754_nan)) /\
  fst (Ftest cdf_ratio (NpFloat64 fone) (NpFloat64 tiny) 1 3 5 false)
  = inr (PFloat (NpFloat64 pzero)).
Proof.
  repeat split; try (vm_compute; reflexivity).
  intros (c & c' & H1 & H2 & H3).
  vm_compute in H1, H2.
  injection H1 as <-. injection H2 as <-. discriminate H3.
Qed.

(** C8, as stated, fails: for [ssr_simple = 0.0], [ssr_rich = 5e-324],
    [dof_simple = 1], [dof_rich = 3], [n_observations = 5], a valid input
    with [ssr_rich > ssr_simple], the quotient [ssr_rich / 2] underflows to
    zero: the call raises [ZeroDivisionError] on Python floats, and on
    numpy floats [F] and the confidence level are NaN. *)
Lemma Ftest_negative_F_counterexample :
  fltb pzero tiny = true /\ (1 < 3)%Z /\ (3 < 5)%Z /\
  Ftest cdf_ratio (PyFloat pzero) (PyFloat tiny) 1 3 5 false
  = raise ZeroDivisionError /\
  Ftest_F (NpFloat64 pzero) (NpFloat64 tiny) 1 3 5 = ret (NpFloat64 S754_nan) /\
  Ftest cdf_ratio (NpFloat64 pzero) (NpFloat64 tiny) 1 3 5 false
  = (inr (PFloat (NpFloat64 S754_nan)), []) /\
  fst (Ftest cdf_ratio (NpFloat64 pzero) (NpFloat64 tiny) 1 3 5 false)
  <> inr (PFloat (NpFloat64 fone)).
Proof.
  repeat split; try lia; try (vm_compute; reflexivity).
  vm_compute. discriminate.
Qed.

(** [Ftest_formula] at [ssr_simple = 120.0], a numpy [ssr_rich = 80.0],
    degrees of freedom 1 and 3 and 5 observations: [F] is 1/2 and the
    confidence level 1 - 0.5/1.5. *)
Lemma Ftest_formula_witness :
  Ftest_F (PyFloat (float_of_int 120)) (NpFloat64 (float_of_int 80)) 1 3 5
  = ret (NpFloat64 (dyadic 1 (-1))) /\
  fst (Ftest cdf_ratio (PyFloat (float_of_int 120)) (NpFloat64 (float_of_int 80))
         1 3 5 true)
  = inr (PFloat (NpFloat64 (fsub fone (cdf_ratio (dyadic 1 (-1)) 2 2)))).
Proof.
  exact (Ftest_formula cdf_ratio (PyFloat (float_of_int 120))
           (NpFloat64 (float_of_int 80)) 1 3 5 true
           eq_refl eq_refl eq_refl eq_refl (fun H => eq_refl)).
Defined.

Lemma Ftest_returns_confidence_level_witness :
  exists CL : spec_float,
    CL = fsub fone (cdf_ratio (F_statistic (float_of_int 120) (float_of_int 80) 1 2 100)
                     (2 - 1) (100 - 2)) /\
    Ftest cdf_ratio (NpFloat64 (float_of_int 120)) (NpFloat64 (float_of_int 80))
      1 2 100 true
    = (inr (PFloat (NpFloat64 CL)),
       [("CL: " ++ fmt3 CL ++ " , additional parameter necessary: " ++
         (if fltb CL tenth then "YES" else "NO"))%string]).
Proof.
  exact (Ftest_returns_confidence_level cdf_ratio (NpFloat64 (float_of_int 120))
           (NpFloat64 (float_of_int 80)) 1 2 100 true
           eq_refl eq_refl eq_refl eq_refl (fun H => eq_refl)).
Defined.

Lemma Ftest_no_nesting_check_witness :
  fst (Ftest cdf_ratio (PyFloat (float_of_int 120)) (PyFloat (float_of_int 80))
         2 1 100 false)
  = inr (PFloat (NpFloat64
      (fsub fone
         (cdf_ratio (F_statistic (float_of_int 120) (float_of_int 80) 2 1 100)
            (1 - 2) (100 - 1))))).
Proof.
  refine (proj2 (proj2 (proj2
    (Ftest_no_nesting_check cdf_ratio (PyFloat (float_of_int 120))
       (PyFloat (float_of_int 80)) 2 1 100 false _ _))) _ _ _ _);
    try reflexivity; try lia; intros _; reflexivity.
Defined.

Lemma Ftest_no_sample_size_check_witness :
  fst (Ftest cdf_ratio (PyFloat (float_of_int 120)) (PyFloat (float_of_int 80))
         1 2 1 false)
  = inr (PFloat (NpFloat64
      (fsub fone
         (cdf_ratio (F_statistic (float_of_int 120) (float_of_int 80) 1 2 1)
            (2 - 1) (1 - 2))))).
Proof.
  refine (proj2 (proj2 (proj2
    (Ftest_no_sample_size_check cdf_ratio (PyFloat (float_of_int 120))
       (PyFloat (float_of_int 80)) 1 2 1 false _ _ _))) _ _ _);
    try reflexivity; try lia; intros _; reflexivity.
Defined.

Lemma Ftest_zero_ssr_rich_witness :
  Ftest_F (NpFloat64 (float_of_int 1)) (NpFloat64 pzero) 1 3 5 = ret (NpFloat64 pinf) /\
  fst (Ftest cdf_ratio (NpFloat64 (float_of_int 1)) (NpFloat64 pzero) 1 3 5 false)
  = inr (PFloat (NpFloat64 pzero)).
Proof.
  refine (proj1 (Ftest_zero_ssr_rich cdf_ratio (NpFloat64 (float_of_int 1))
                   (NpFloat64 pzero) 1 3 5 false cdf_ratio_one_at_inf _ _ _ _ _) _ _);
    reflexivity || lia.
Defined.

Lemma Ftest_equal_ssr_witness :
  Ftest_F (PyFloat (float_of_int 80)) (NpFloat64 (float_of_int 80)) 1 3 5
  = ret (NpFloat64 pzero) /\
  fst (Ftest cdf_ratio (PyFloat (float_of_int 80)) (NpFloat64 (float_of_int 80))
         1 3 5 false)
  = inr (PFloat (NpFloat64 fone)).
Proof.
  refine (Ftest_equal_ssr cdf_ratio (PyFloat (float_of_int 80))
            (NpFloat64 (float_of_int 80)) 1 3 5 false
            cdf_ratio_zero_at_zero _ _ _ _ _ _ _ _);
    reflexivity || lia.
Defined.

Lemma Ftest_level_monotone_witness :
  fleb (fsub (float_of_int 50) (float_of_int 50))
       (fsub (float_of_int 120) (float_of_int 50)) = true /\
  exists c c' : spec_float,
    fst (Ftest cdf_step (PyFloat (float_of_int 50)) (PyFloat (float_of_int 50))
           1 2 100 false) = inr (PFloat (NpFloat64 c)) /\
    fst (Ftest cdf_step (NpFloat64 (float_of_int 120)) (PyFloat (float_of_int 50))
           1 2 100 true) = inr (PFloat (NpFloat64 c')) /\
    fleb c' c = true.
Proof.
  destruct (Ftest_level_monotone cdf_step (PyFloat (float_of_int 50))
              (NpFloat64 (float_of_int 120)) (PyFloat (float_of_int 50))
              1 2 100 false true cdf_step_monotone cdf_step_unit_interval)
    as [H1 H2]; try reflexivity; try lia.
  split; [apply H1; reflexivity|apply H2, H1; reflexivity].
Defined.

Lemma Ftest_negative_F_witness :
  sign_bit (F_statistic (float_of_int 80) (float_of_int 120) 1 2 100) = true /\
  Ftest_F (PyFloat (float_of_int 80)) (PyFloat (float_of_int 120)) 1 2 100
  = ret (PyFloat (F_statistic (float_of_int 80) (float_of_int 120) 1 2 100)) /\
  fst (Ftest cdf_ratio (PyFloat (float_of_int 80)) (PyFloat (float_of_int 120))
         1 2 100 false)
  = inr (PFloat (NpFloat64 fone)).
Proof.
  refine (Ftest_negative_F cdf_ratio (PyFloat (float_of_int 80))
            (PyFloat (float_of_int 120)) 1 2 100 false
            cdf_ratio_zero_below _ _ _ _ _ _ _ _ _ _);
    reflexivity || lia.
Defined.

(** * More on the comparator *)

(** Settles a statement on how a call ends once the call is evaluated. *)
Ltac settle_outcome :=
  cbn [fst raise];
  repeat split; intros;
  intuition (try congruence; try discriminate; try lia).

(** The outcome of the three divisions, case by case, in the order the
    interpreter meets them. *)
Lemma Ftest_F_cases (a b : pyfloat) (d1 d2 n : Z) :
  Ftest_F a b d1 d2 n =
  if negb (fits_float (d2 - d1)) then raise OverflowError
  else if negb (is_np a || is_np b) && (d2 =? d1)%Z then raise ZeroDivisionError
  else if negb (fits_float (n - d2)) then raise OverflowError
  else if negb (is_np b) && (n =? d2)%Z then raise ZeroDivisionError
  else if negb (is_np a || is_np b)
          && is_zero (fdiv (value b) (float_of_int (n - d2)))
       then raise ZeroDivisionError
  else ret (wrap (is_np a || is_np b) (F_statistic (value a) (value b) d1 d2 n)).
Proof.
  destruct (fits_float (d2 - d1)) eqn:F1; cbn [negb].
  2: { unfold Ftest_F. now rewrite truediv_int_overflow. }
  destruct (negb (is_np a || is_np b) && (d2 =? d1)%Z) eqn:C1.
  { apply andb_prop in C1 as [Hnp E]. apply Z.eqb_eq in E. subst d2.
    apply negb_true_iff, orb_false_elim in Hnp as [Ha Hb].
    destruct a, b; try discriminate. apply Ftest_F_first_zero. }
  destruct (fits_float (n - d2)) eqn:F2; cbn [negb].
  2: { unfold Ftest_F. rewrite truediv_int_fits by assumption.
       assert (E : exists num, truediv (sub a b) (PyFloat (float_of_int (d2 - d1)))
                               = ret num).
       { destruct (is_np a || is_np b) eqn:Hnp.
         - rewrite truediv_numpy by (now destruct a, b). eauto.
         - cbn [negb andb] in C1. apply Z.eqb_neq in C1.
           rewrite truediv_nonzero
             by (cbn [value]; rewrite float_of_int_is_zero; apply Z.eqb_neq; lia).
           eauto. }
       destruct E as [num ->]. rewrite bind_ret.
       now rewrite truediv_int_overflow. }
  destruct (negb (is_np b) && (n =? d2)%Z) eqn:C2.
  { apply andb_prop in C2 as [Hb E]. apply Z.eqb_eq in E. subst n.
    apply negb_true_iff in Hb. destruct b; try discriminate.
    now apply Ftest_F_second_zero. }
  destruct (negb (is_np a || is_np b)
            && is_zero (fdiv (value b) (float_of_int (n - d2)))) eqn:C3.
  { apply andb_prop in C3 as [Hnp E].
    apply negb_true_iff, orb_false_elim in Hnp as [Ha Hb].
    destruct a, b; try discriminate. now apply Ftest_F_third_zero. }
  apply Ftest_F_returns; try assumption.
  - intros Hnp. rewrite Hnp in C1. cbn [negb andb] in C1. now apply Z.eqb_neq in C1.
  - intros Hb. rewrite Hb in C2. cbn [negb andb] in C2. now apply Z.eqb_neq in C2.
  - intros Hnp. rewrite Hnp in C3. exact C3.
Qed.

(** As soon as [ssr_2] is a numpy float no division can raise, whatever
    the other arguments are (zero or negative degrees of freedom, zero,
    infinite or NaN residual sums): the call never ends in
    [ZeroDivisionError]; when both differences of [int]s are within the
    float range a confidence level comes back, and with [verbose] set one
    line is written; otherwise the conversion raises [OverflowError].
    The calls of the notebook, whose residual sums come out of [np.sum],
    are of this kind. *)
Theorem Ftest_numpy_never_divides_by_zero
  (f_cdf : spec_float -> Z -> Z -> spec_float)
  (ssr_1 : pyfloat) (s2 : spec_float) (ndof_1 ndof_2 nbins : Z) (verbose : bool) :
  fst (Ftest f_cdf ssr_1 (NpFloat64 s2) ndof_1 ndof_2 nbins verbose)
  <> inl ZeroDivisionError /\
  (fits_float (ndof_2 - ndof_1) && fits_float (nbins - ndof_2) = true ->
   exists CL : spec_float,
     CL = fsub fone
            (f_cdf (F_statistic (value ssr_1) s2 ndof_1 ndof_2 nbins)
               (ndof_2 - ndof_1)%Z (nbins - ndof_2)%Z) /\
     Ftest f_cdf ssr_1 (NpFloat64 s2) ndof_1 ndof_2 nbins verbose
     = (inr (PFloat (NpFloat64 CL)), if verbose then [diagnostic CL] else [])) /\
  (fits_float (ndof_2 - ndof_1) && fits_float (nbins - ndof_2) = false ->
   Ftest f_cdf ssr_1 (NpFloat64 s2) ndof_1 ndof_2 nbins verbose
   = raise OverflowError).
Proof.
  pose proof (Ftest_F_cases ssr_1 (NpFloat64 s2) ndof_1 ndof_2 nbins) as HF.
  cbn [is_np negb andb value] in HF. rewrite orb_true_r in HF.
  cbn [negb andb wrap] in HF.
  destruct (fits_float (ndof_2 - ndof_1)), (fits_float (nbins - ndof_2));
    cbn [negb andb] in HF |- *.
  - rewrite (Ftest_returns f_cdf _ _ _ _ _ verbose _ HF). cbn [value].
    repeat split; try discriminate.
    intros _. eexists. split; reflexivity.
  - rewrite (Ftest_raises f_cdf _ _ _ _ _ verbose _ HF).
    repeat split; discriminate.
  - rewrite (Ftest_raises f_cdf _ _ _ _ _ verbose _ HF).
    repeat split; discriminate.
  - rewrite (Ftest_raises f_cdf _ _ _ _ _ verbose _ HF).
    repeat split; discriminate.
Qed.

(** When [Ftest] raises.  The call ends in [OverflowError] exactly when a
    difference of [int]s that gets converted is beyond the float range,
    and in [ZeroDivisionError] exactly when a division of Python floats
    meets a zero divisor: both residual sums are Python floats and
    [ndof_2 = ndof_1]; or [ssr_2] is a Python float and [nbins = ndof_2];
    or both are Python floats and [ssr_2 / (nbins - ndof_2)] evaluates to
    zero ([ssr_2] is zero, or the quotient underflows).  No other
    exception is raised. *)
Theorem Ftest_raises_iff (f_cdf : spec_float -> Z -> Z -> spec_float)
  (ssr_1 ssr_2 : pyfloat) (ndof_1 ndof_2 nbins : Z) (verbose : bool) :
  (fst (Ftest f_cdf ssr_1 ssr_2 ndof_1 ndof_2 nbins verbose) = inl OverflowError <->
   fits_float (ndof_2 - ndof_1) = false \/
   (~ (is_np ssr_1 || is_np ssr_2 = false /\ ndof_2 = ndof_1) /\
    fits_float (nbins - ndof_2) = false)) /\
  (fst (Ftest f_cdf ssr_1 ssr_2 ndof_1 ndof_2 nbins verbose) = inl ZeroDivisionError <->
   fits_float (ndof_2 - ndof_1) = true /\
   ((is_np ssr_1 || is_np ssr_2 = false /\ ndof_2 = ndof_1) \/
    (fits_float (nbins - ndof_2) = true /\
     ((is_np ssr_2 = false /\ nbins = ndof_2) \/
      (is_np ssr_1 || is_np ssr_2 = false /\
       is_zero (fdiv (value ssr_2) (float_of_int (nbins - ndof_2))) = true))))) /\
  (forall e, fst (Ftest f_cdf ssr_1 ssr_2 ndof_1 ndof_2 nbins verbose) = inl e ->
             e = OverflowError \/ e = ZeroDivisionError).
Proof.
  pose proof (Ftest_F_cases ssr_1 ssr_2 ndof_1 ndof_2 nbins) as HF.
  destruct (fits_float (ndof_2 - ndof_1)) eqn:F1; cbn [negb] in HF;
    [|rewrite (Ftest_raises f_cdf _ _ _ _ _ verbose _ HF); settle_outcome].
  destruct (is_np ssr_1 || is_np ssr_2) eqn:Hnp; cbn [negb andb] in HF.
  - destruct (fits_float (nbins - ndof_2)) eqn:F2; cbn [negb] in HF;
      [|rewrite (Ftest_raises f_cdf _ _ _ _ _ verbose _ HF); settle_outcome].
    destruct (is_np ssr_2) eqn:Hb; cbn [negb andb] in HF;
      [rewrite (Ftest_returns f_cdf _ _ _ _ _ verbose _ HF); settle_outcome|].
    destruct (Z.eqb_spec nbins ndof_2) as [E|E].
    + rewrite (Ftest_raises f_cdf _ _ _ _ _ verbose _ HF); settle_outcome.
    + rewrite (Ftest_returns f_cdf _ _ _ _ _ verbose _ HF); settle_outcome.
  - destruct (Z.eqb_spec ndof_2 ndof_1) as [E1|E1];
      [rewrite (Ftest_raises f_cdf _ _ _ _ _ verbose _ HF); settle_outcome|].
    destruct (fits_float (nbins - ndof_2)) eqn:F2; cbn [negb] in HF;
      [|rewrite (Ftest_raises f_cdf _ _ _ _ _ verbose _ HF); settle_outcome].
    apply orb_false_elim in Hnp as [Ha Hb]. rewrite Hb in HF. cbn [negb andb] in HF.
    destruct (Z.eqb_spec nbins ndof_2) as [E2|E2];
      [rewrite (Ftest_raises f_cdf _ _ _ _ _ verbose _ HF); settle_outcome|].
    destruct (is_zero (fdiv (value ssr_2) (float_of_int (nbins - ndof_2)))) eqn:E3.
    + rewrite (Ftest_raises f_cdf _ _ _ _ _ verbose _ HF); settle_outcome.
    + rewrite (Ftest_returns f_cdf _ _ _ _ _ verbose _ HF); settle_outcome.
Qed.

(** [x - y] for well-formed [0 <= y < x < inf] is a non-zero number with
    the sign bit clear. *)
Lemma fsub_gt (x y : spec_float) :
  binary64 x -> binary64 y ->
  sign_bit y = false -> is_finite x = true ->
  fltb y x = true ->
  is_zero (fsub x y) = false /\ signed_result false (fsub x y).
Proof.
  intros Vx Vy Sy Fx H.
  destruct x as [sx|sx| |sx mx ex]; try discriminate Fx.
  destruct y as [sy|sy| |sy my ey]; cbn [sign_bit] in Sy; subst;
    try discriminate H.
  - destruct sx; [discriminate H|]. repeat split.
  - destruct sx; [discriminate H|].
    pose proof (aligned_lt my mx ey ex Vy Vx H) as L.
    rewrite (Z.min_comm ey ex) in L.
    unfold fsub, SFsub. cbn [cond_Zopp].
    destruct (Zpos (fst (shl_align mx ex (Z.min ex ey)))
              - Zpos (fst (shl_align my ey (Z.min ex ey))))%Z as [|p|p] eqn:E;
      try lia.
    cbn [binary_normalize].
    apply binary64_finite in Vx as (Ex & _). apply binary64_finite in Vy as (Ey & _).
    split; [apply binary_round_nonzero; lia|apply binary_round_sign].
Qed.

(** Two finite non-negative numbers are ordered one way or the other, or
    are the same number. *)
Lemma fltb_trichotomy (x y : spec_float) :
  sign_bit x = false -> sign_bit y = false ->
  (is_finite x || is_zero x)%bool = true ->
  (is_finite y || is_zero y)%bool = true ->
  fltb x y = true \/ fltb y x = true \/ x = y.
Proof.
  intros Sx Sy Fx Fy.
  destruct x as [sx|sx| |sx mx ex], y as [sy|sy| |sy my ey];
    try discriminate; cbn [sign_bit] in Sx, Sy; subst; auto.
  unfold fltb, SFltb, SFcompare.
  destruct (Z.compare_spec ex ey) as [E|E|E]; rewrite ?Z.compare_refl; auto.
  - subst ey. rewrite ?Z.compare_refl.
    destruct (Pos.compare_spec mx my) as [C|C|C].
    + subst my. auto.
    + left. change (Pos.compare_cont Eq mx my) with (Pos.compare mx my).
      now rewrite (proj2 (Pos.compare_lt_iff mx my) C).
    + right; left. change (Pos.compare_cont Eq my mx) with (Pos.compare my mx).
      now rewrite (proj2 (Pos.compare_lt_iff my mx) C).
  - right; left. now rewrite (proj2 (Z.compare_lt_iff ey ex) E).
Qed.

Lemma fltb_irrefl (x : spec_float) : fltb x x = false.
Proof.
  destruct x as [s|[|]| |[|] m e]; try reflexivity;
    unfold fltb, SFltb, SFcompare; rewrite Z.compare_refl;
    change (Pos.compare_cont Eq m m) with (Pos.compare m m);
    now rewrite Pos.compare_refl.
Qed.

Lemma fltb_asym (x y : spec_float) : fltb x y = true -> fltb y x = false.
Proof.
  destruct x as [sx|sx| |sx mx ex], y as [sy|sy| |sy my ey];
    try reflexivity; try discriminate;
    try (destruct sx; (reflexivity || discriminate));
    try (destruct sy; (reflexivity || discriminate));
    try (destruct sx, sy; (reflexivity || discriminate)).
  unfold fltb, SFltb, SFcompare.
  rewrite (Z.compare_antisym ex ey).
  change (Pos.compare_cont Eq mx my) with (Pos.compare mx my).
  change (Pos.compare_cont Eq my mx) with (Pos.compare my mx).
  rewrite (Pos.compare_antisym mx my).
  destruct sx, sy; try (reflexivity || discriminate);
    destruct (ex ?= ey)%Z; cbn; try (reflexivity || discriminate);
    destruct (mx ?= my)%positive; cbn; (reflexivity || discriminate).
Qed.

(** The sign of [F] when the divisors are positive finite numbers. *)
Lemma F_statistic_sign_bit (s1 s2 : spec_float) (d1 d2 n : Z) :
  (d1 < d2)%Z -> (d2 < n)%Z ->
  fits_float (d2 - d1) = true -> fits_float (n - d2) = true ->
  is_nan (fsub s1 s2) = false -> sign_bit s2 = false ->
  is_finite (fdiv s2 (float_of_int (n - d2))) = true ->
  is_nan (F_statistic s1 s2 d1 d2 n) = false /\
  sign_bit (F_statistic s1 s2 d1 d2 n) = sign_bit (fsub s1 s2).
Proof.
  intros Hd Hn F1 F2 DN S2 Hden.
  destruct (float_of_int_pos (d2 - d1)) as (ma & ea & Ea); [lia|assumption|].
  destruct (float_of_int_pos (n - d2)) as (mb & eb & Eb); [lia|assumption|].
  unfold F_statistic. rewrite Ea. rewrite Eb in Hden |- *.
  set (D := fsub s1 s2) in *.
  set (den := fdiv s2 (S754_finite false mb eb)) in *.
  assert (Nnum : is_nan (fdiv D (S754_finite false ma ea)) = false).
  { rewrite fdiv_nan, DN. cbn. now rewrite !andb_false_r. }
  assert (Nden : is_nan den = false) by (now destruct den).
  assert (Sden : sign_bit den = false).
  { subst den. rewrite fdiv_sign by assumption. now rewrite S2. }
  assert (NF : is_nan (fdiv (fdiv D (S754_finite false ma ea)) den) = false).
  { rewrite fdiv_nan, Nnum, Nden. destruct den; try discriminate Hden.
    cbn. now rewrite !andb_false_r. }
  split; [exact NF|].
  rewrite fdiv_sign by assumption. rewrite fdiv_sign by assumption.
  rewrite Sden. cbn [sign_bit]. now rewrite !xorb_false_r.
Qed.

(** The sign of the F statistic.  For well-formed finite residual sums
    [ssr_1 >= 0], [ssr_2 > 0], valid degrees of freedom within the float
    range and a quotient [ssr_2 / (nbins - ndof_2)] that evaluates to a
    non-zero finite number, the call returns, [F] is not NaN, and its sign
    bit is set exactly when [ssr_1 < ssr_2]: [F] is negative (or -0.0 on
    underflow) for [ssr_1 < ssr_2], +0.0 for [ssr_1 == ssr_2], and
    positive (or +0.0 on underflow, +inf on overflow) for
    [ssr_1 > ssr_2]. *)
Theorem Ftest_F_sign (ssr_1 ssr_2 : pyfloat) (d1 d2 n : Z) :
  binary64 (value ssr_1) -> binary64 (value ssr_2) ->
  sign_bit (value ssr_1) = false ->
  (is_finite (value ssr_1) || is_zero (value ssr_1))%bool = true ->
  sign_bit (value ssr_2) = false -> is_finite (value ssr_2) = true ->
  (d1 < d2)%Z -> (d2 < n)%Z ->
  fits_float (d2 - d1) = true -> fits_float (n - d2) = true ->
  is_finite (fdiv (value ssr_2) (float_of_int (n - d2))) = true ->
  Ftest_F ssr_1 ssr_2 d1 d2 n
  = ret (wrap (is_np ssr_1 || is_np ssr_2)
           (F_statistic (value ssr_1) (value ssr_2) d1 d2 n)) /\
  is_nan (F_statistic (value ssr_1) (value ssr_2) d1 d2 n) = false /\
  sign_bit (F_statistic (value ssr_1) (value ssr_2) d1 d2 n)
  = fltb (value ssr_1) (value ssr_2) /\
  (value ssr_1 = value ssr_2 ->
   F_statistic (value ssr_1) (value ssr_2) d1 d2 n = pzero).
Proof.
  intros V1 V2 S1 Fin1 S2 Fin2 Hd Hn F1 F2 Hden.
  assert (HF : Ftest_F ssr_1 ssr_2 d1 d2 n
               = ret (wrap (is_np ssr_1 || is_np ssr_2)
                        (F_statistic (value ssr_1) (value ssr_2) d1 d2 n))).
  { apply Ftest_F_returns; auto; try (intros; lia).
    intros _. now destruct (fdiv (value ssr_2) (float_of_int (n - d2))). }
  split; [exact HF|].
  assert (Hsub : is_nan (fsub (value ssr_1) (value ssr_2)) = false /\
                 sign_bit (fsub (value ssr_1) (value ssr_2))
                 = fltb (value ssr_1) (value ssr_2) /\
                 (value ssr_1 = value ssr_2 ->
                  fsub (value ssr_1) (value ssr_2) = pzero)).
  { destruct (fltb_trichotomy (value ssr_1) (value ssr_2)) as [L|[G|E]];
      try assumption; try (now rewrite Fin2).
    - destruct (fsub_lt _ _ V1 V2 S1 Fin2 L) as (_ & N & S).
      rewrite N, S, L. repeat split.
      intros E. rewrite E, fltb_irrefl in L. discriminate L.
    - assert (Fin1' : is_finite (value ssr_1) = true).
      { destruct (value ssr_1) as [s|s| |s m e]; try discriminate; try reflexivity.
        destruct (value ssr_2) as [t|t| |[|] m' e']; discriminate. }
      destruct (fsub_gt _ _ V1 V2 S2 Fin1' G) as (_ & N & S).
      rewrite N, S, (fltb_asym _ _ G). repeat split.
      intros E. rewrite E, fltb_irrefl in G. discriminate G.
    - rewrite E, fltb_irrefl, fsub_self by (now rewrite Fin2).
      repeat split. }
  destruct Hsub as (DN & DS & DE).
  destruct (F_statistic_sign_bit (value ssr_1) (value ssr_2) d1 d2 n
              Hd Hn F1 F2 DN S2 Hden) as [NF SF].
  split; [exact NF|]. split; [now rewrite SF|].
  intros E. specialize (DE E).
  destruct (float_of_int_pos (d2 - d1)) as (ma & ea & Ea); [lia|assumption|].
  assert (Z : is_zero (F_statistic (value ssr_1) (value ssr_2) d1 d2 n) = true).
  { unfold F_statistic. rewrite DE, Ea.
    destruct (fdiv (value ssr_2) (float_of_int (n - d2))) as [s|s| |s m e];
      try discriminate Hden. reflexivity. }
  rewrite (is_zero_sign _ Z), SF, DE. reflexivity.
Qed.

Lemma Ftest_F_sign_witness :
  Ftest_F (NpFloat64 (float_of_int 120)) (NpFloat64 (float_of_int 80)) 1 2 100
  = ret (NpFloat64 (F_statistic (float_of_int 120) (float_of_int 80) 1 2 100)) /\
  is_nan (F_statistic (float_of_int 120) (float_of_int 80) 1 2 100) = false /\
  sign_bit (F_statistic (float_of_int 120) (float_of_int 80) 1 2 100) = false /\
  (float_of_int 120 = float_of_int 80 ->
   F_statistic (float_of_int 120) (float_of_int 80) 1 2 100 = pzero).
Proof.
  refine (Ftest_F_sign (NpFloat64 (float_of_int 120)) (NpFloat64 (float_of_int 80))
            1 2 100 _ _ _ _ _ _ _ _ _ _ _);
    reflexivity || lia.
Defined.

(** The 0/0 case on numpy floats: with [ssr_simple = ssr_rich = 0.0], valid
    degrees of freedom within the float range and a distribution function
    that propagates NaN, the confidence level is NaN and, NaN being below
    nothing, the line written says NO. *)
Theorem Ftest_nan_says_no (f_cdf : spec_float -> Z -> Z -> spec_float)
  (ssr_1 ssr_2 : pyfloat) (d1 d2 n : Z) :
  cdf_nan f_cdf ->
  is_np ssr_1 || is_np ssr_2 = true ->
  value ssr_1 = pzero -> value ssr_2 = pzero ->
  (d1 < d2)%Z -> (d2 < n)%Z ->
  fits_float (d2 - d1) = true -> fits_float (n - d2) = true ->
  Ftest f_cdf ssr_1 ssr_2 d1 d2 n true
  = (inr (PFloat (NpFloat64 S754_nan)),
     ["CL: nan , additional parameter necessary: NO"%string]).
Proof.
  intros Hnan Hnp H1 H2 Hd Hn F1 F2.
  destruct (float_of_int_pos (d2 - d1)) as (ma & ea & Ea); [lia|assumption|].
  destruct (float_of_int_pos (n - d2)) as (mb & eb & Eb); [lia|assumption|].
  assert (HF : Ftest_F ssr_1 ssr_2 d1 d2 n = ret (NpFloat64 S754_nan)).
  { rewrite Ftest_F_returns; auto; try (intros; lia); try congruence.
    rewrite Hnp. cbn [wrap]. unfold F_statistic.
    rewrite H1, H2, Ea, Eb. reflexivity. }
  rewrite (Ftest_returns f_cdf _ _ _ _ _ true _ HF). cbn [value].
  rewrite Hnan. reflexivity.
Qed.

Lemma Ftest_nan_says_no_witness :
  Ftest cdf_ratio (NpFloat64 pzero) (NpFloat64 pzero) 1 3 5 true
  = (inr (PFloat (NpFloat64 S754_nan)),
     ["CL: nan , additional parameter necessary: NO"%string]).
Proof.
  apply (Ftest_nan_says_no cdf_ratio (NpFloat64 pzero) (NpFloat64 pzero) 1 3 5
           cdf_ratio_nan); reflexivity || lia.
Defined.

(** * The residual sums *)

(** The subtraction of the residual sum fails exactly on shapes that cannot
    be broadcast: different lengths, none of them 1.  The failure is a
    [ValueError]. *)
Theorem ssr_raises_iff (array_power : ndarray -> Z -> ndarray)
  (np_sum : ndarray -> spec_float) (fit y : ndarray) (e : exn) :
  ssr array_power np_sum fit y = inl e <->
  e = ValueError /\ List.length fit <> List.length y /\
  List.length fit <> 1%nat /\ List.length y <> 1%nat.
Proof.
  unfold ssr, array_sub.
  destruct (Nat.eqb (List.length fit) (List.length y)) eqn:E.
  - apply Nat.eqb_eq in E. split; [discriminate|]. intros (_ & H & _). contradiction.
  - apply Nat.eqb_neq in E.
    destruct fit as [|a0 [|a1 fit]], y as [|b0 [|b1 y]]; cbn in E |- *;
      try (split; [discriminate|]; intros (_ & _ & H1 & H2); congruence);
      try (split; [intros [= <-]; repeat split; congruence|reflexivity || (intros (-> & _); reflexivity)]).
Qed.

(** The two calls of the notebook, [Ftest(ssr_1, ssr_2, 2-1, 3-1, N, verbose=True)]
    and [Ftest(ssr_2, ssr_3, 3-1, 4-1, N, verbose=True)] with [N = 100] and
    residual sums that come out of [np.sum], always return a confidence
    level and write one line, whatever the fitted values and the data
    are: the residual sums are numpy floats, so no division raises, and
    the degrees of freedom convert to floats. *)
Theorem Ftest_on_residual_sums (f_cdf : spec_float -> Z -> Z -> spec_float)
  (array_power : ndarray -> Z -> ndarray) (np_sum : ndarray -> spec_float)
  (y1 y2 y3 y : ndarray) (ssr_1 ssr_2 ssr_3 : pyfloat) :
  ssr array_power np_sum y1 y = inr ssr_1 ->
  ssr array_power np_sum y2 y = inr ssr_2 ->
  ssr array_power np_sum y3 y = inr ssr_3 ->
  (exists CL : spec_float,
     CL = fsub fone
            (f_cdf (F_statistic (value ssr_1) (value ssr_2) (2 - 1) (3 - 1) 100)
               1%Z 98%Z) /\
     Ftest f_cdf ssr_1 ssr_2 (2 - 1) (3 - 1) 100 true
     = (inr (PFloat (NpFloat64 CL)), [diagnostic CL])) /\
  (exists CL : spec_float,
     CL = fsub fone
            (f_cdf (F_statistic (value ssr_2) (value ssr_3) (3 - 1) (4 - 1) 100)
               1%Z 97%Z) /\
     Ftest f_cdf ssr_2 ssr_3 (3 - 1) (4 - 1) 100 true
     = (inr (PFloat (NpFloat64 CL)), [diagnostic CL])).
Proof.
  unfold ssr. intros H1 H2 H3.
  destruct (array_sub y1 y) as [e1|r1]; [discriminate H1|].
  destruct (array_sub y2 y) as [e2|r2]; [discriminate H2|].
  destruct (array_sub y3 y) as [e3|r3]; [discriminate H3|].
  injection H1 as <-. injection H2 as <-. injection H3 as <-.
  split.
  - pose proof (Ftest_F_numpy (NpFloat64 (np_sum (array_power r1 2%Z)))
                  (np_sum (array_power r2 2%Z)) (2 - 1) (3 - 1) 100
                  eq_refl eq_refl) as HF.
    rewrite (Ftest_returns f_cdf _ _ _ _ _ true _ HF). cbn [value].
    eexists. split; reflexivity.
  - pose proof (Ftest_F_numpy (NpFloat64 (np_sum (array_power r2 2%Z)))
                  (np_sum (array_power r3 2%Z)) (3 - 1) (4 - 1) 100
                  eq_refl eq_refl) as HF.
    rewrite (Ftest_returns f_cdf _ _ _ _ _ true _ HF). cbn [value].
    eexists. split; reflexivity.
Qed.

Lemma Ftest_on_residual_sums_witness :
  (exists CL : spec_float,
     CL = fsub fone
            (cdf_ratio (F_statistic (float_of_int 5) (float_of_int 1) (2 - 1) (3 - 1) 100)
               1 98) /\
     Ftest cdf_ratio (NpFloat64 (float_of_int 5)) (NpFloat64 (float_of_int 1))
       (2 - 1) (3 - 1) 100 true
     = (inr (PFloat (NpFloat64 CL)), [diagnostic CL])) /\
  (exists CL : spec_float,
     CL = fsub fone
            (cdf_ratio (F_statistic (float_of_int 1) pzero (3 - 1) (4 - 1) 100)
               1 97) /\
     Ftest cdf_ratio (NpFloat64 (float_of_int 1)) (NpFloat64 pzero)
       (3 - 1) (4 - 1) 100 true
     = (inr (PFloat (NpFloat64 CL)), [diagnostic CL])).
Proof.
  exact (Ftest_on_residual_sums cdf_ratio
           (fun a _ => map (fun r => fmul r r) a)
           (fun a => fold_left fadd a pzero)
           [float_of_int 1; float_of_int 4] [float_of_int 2; float_of_int 3]
           [float_of_int 2; float_of_int 2] [float_of_int 2; float_of_int 2]
           (NpFloat64 (float_of_int 5)) (NpFloat64 (float_of_int 1))
           (NpFloat64 pzero)
           eq_refl eq_refl eq_refl).
Defined.

(** * The functions of the root-finding and minimisation cells *)

(** [f] of the system needs two components: it fails on a shorter
    sequence and on nothing else, returns two residuals, and looks at the
    first two components only. *)
Theorem f_system_index (power : spec_float -> Z -> spec_float) (x : ndarray) :
  (f_system power x = None <-> (List.length x < 2)%nat) /\
  (forall r, f_system power x = Some r -> List.length r = 2%nat) /\
  f_system power x = f_system power (firstn 2 x).
Proof.
  destruct x as [|x0 [|x1 x]]; cbn [f_system nth_error firstn List.length];
    repeat split; try (cbn; lia); try discriminate;
    try (intros r [= <-]; reflexivity).
Qed.

(** The bounded search of the notebook, on [0, 6], cannot return the
    global minimum: every value of [f] on the bounds is above [f(-5)]. *)
Theorem f_quartic_bounds_miss_global_minimum (x : Q) :
  0 <= x -> x <= 6 -> f_quartic (-5) < f_quartic x.
Proof.
  intros H0 H6. unfold f_quartic.
  assert (H1 : 0 <= (x ^ 2 - (15 # 2)) ^ 2)
    by (generalize (x ^ 2 - (15 # 2)); intros r; nra).
  assert (E1 : (x ^ 2 - (15 # 2)) ^ 2 == x ^ 4 - 15 * x ^ 2 + (225 # 4)) by ring.
  assert (E2 : (x - 2) ^ 3 == x ^ 2 * (x - 6) + 12 * x - 8) by ring.
  assert (H2 : - (216) <= x ^ 2 * (x - 6)).
  { assert (0 <= x ^ 2) by nra. assert (x ^ 2 <= 36) by nra. nra. }
  rewrite E1 in H1. rewrite E2.
  assert (E3 : (-5) ^ 4 + 3 * (-5 - 2) ^ 3 - 15 * (-5) ^ 2 + 1 == - (778))
    by reflexivity.
  rewrite E3. lra.
Qed.

Lemma f_quartic_bounds_miss_global_minimum_witness : f_quartic (-5) < f_quartic 3.
Proof. apply (f_quartic_bounds_miss_global_minimum 3); lra. Defined.

Module RealRoots.

Import Reals Qreals Lra.
Local Open Scope R_scope.

(** The polynomial of [f_cubic] on the real line, where its roots are. *)
Definition f_cubic_R (x : R) : R := x ^ 3 - 3 * x + 1.

Lemma Q2R_f_cubic (q : Q) : Q2R (f_cubic q) = f_cubic_R (Q2R q).
Proof.
  unfold f_cubic, f_cubic_R.
  rewrite Q2R_plus, Q2R_minus. simpl Qpower. rewrite !Q2R_mult.
  assert (E3 : Q2R 3 = 3) by (unfold Q2R; simpl; lra).
  assert (E1 : Q2R 1 = 1) by (unfold Q2R; simpl; lra).
  rewrite E3, E1. ring.
Qed.

Lemma f_cubic_R_continuous : continuity f_cubic_R.
Proof. unfold f_cubic_R. reg. Qed.

Lemma f_cubic_R_diff (x y : R) :
  f_cubic_R y - f_cubic_R x = (y - x) * (x * x + x * y + y * y - 3).
Proof. unfold f_cubic_R. ring. Qed.

Lemma unique_root_increasing (a b : R) :
  (forall x y, a <= x -> x < y -> y <= b -> f_cubic_R x < f_cubic_R y) ->
  forall z z', a <= z <= b -> a <= z' <= b ->
    f_cubic_R z = 0 -> f_cubic_R z' = 0 -> z = z'.
Proof.
  intros Hinc z z' Hz Hz' E E'.
  destruct (Rtotal_order z z') as [H|[H|H]]; [|assumption|].
  - pose proof (Hinc z z' ltac:(lra) H ltac:(lra)). lra.
  - pose proof (Hinc z' z ltac:(lra) H ltac:(lra)). lra.
Qed.

Lemma unique_root_decreasing (a b : R) :
  (forall x y, a <= x -> x < y -> y <= b -> f_cubic_R y < f_cubic_R x) ->
  forall z z', a <= z <= b -> a <= z' <= b ->
    f_cubic_R z = 0 -> f_cubic_R z' = 0 -> z = z'.
Proof.
  intros Hdec z z' Hz Hz' E E'.
  destruct (Rtotal_order z z') as [H|[H|H]]; [|assumption|].
  - pose proof (Hdec z z' ltac:(lra) H ltac:(lra)). lra.
  - pose proof (Hdec z' z ltac:(lra) H ltac:(lra)). lra.
Qed.

Lemma f_cubic_R_increasing_left (x y : R) :
  x < y -> y <= -1 -> f_cubic_R x < f_cubic_R y.
Proof.
  intros Hxy Hy. pose proof (f_cubic_R_diff x y) as D.
  assert (0 < (y - x) * (x * x + x * y + y * y - 3)); [|lra].
  apply Rmult_lt_0_compat; [lra|]. nra.
Qed.

Lemma f_cubic_R_decreasing_middle (x y : R) :
  0 <= x -> x < y -> y <= 1 -> f_cubic_R y < f_cubic_R x.
Proof.
  intros Hx Hxy Hy. pose proof (f_cubic_R_diff x y) as D.
  assert (0 < (y - x) * (3 - (x * x + x * y + y * y))); [|lra].
  apply Rmult_lt_0_compat; [lra|]. nra.
Qed.

Lemma f_cubic_R_increasing_right (x y : R) :
  1 <= x -> x < y -> f_cubic_R x < f_cubic_R y.
Proof.
  intros Hx Hxy. pose proof (f_cubic_R_diff x y) as D.
  assert (0 < (y - x) * (x * x + x * y + y * y - 3)); [|lra].
  apply Rmult_lt_0_compat; [lra|]. nra.
Qed.

Lemma f_cubic_R_positive_near_zero (z : R) : -1 <= z <= 0 -> 1 <= f_cubic_R z.
Proof.
  intros Hz. unfold f_cubic_R.
  assert (0 <= (- z) * (3 - z * z)) by (apply Rmult_le_pos; nra).
  nra.
Qed.

(** Each of the three brackets handed to [brentq], [-3, 0], [0, 1] and
    [1, 3], has values of opposite signs at its ends, as [brentq]
    requires, and contains exactly one real root of the polynomial. *)
Theorem brentq_brackets_isolate_roots :
  (f_cubic (-3) * f_cubic 0 < 0)%Q /\
  (f_cubic 0 * f_cubic 1 < 0)%Q /\
  (f_cubic 1 * f_cubic 3 < 0)%Q /\
  (exists! z : R, -3 <= z <= 0 /\ f_cubic_R z = 0) /\
  (exists! z : R, 0 <= z <= 1 /\ f_cubic_R z = 0) /\
  (exists! z : R, 1 <= z <= 3 /\ f_cubic_R z = 0).
Proof.
  repeat split; try reflexivity.
  - destruct (IVT_cor f_cubic_R (-3) 0 f_cubic_R_continuous) as [z [Hz E]];
      [lra|unfold f_cubic_R; lra|].
    exists z. split; [split; assumption|].
    intros z' [Hz' E'].
    assert (L : forall t, -3 <= t <= 0 -> f_cubic_R t = 0 -> -3 <= t <= -1).
    { intros t Ht Et. destruct (Rle_lt_dec t (-1)) as [|N]; [lra|].
      pose proof (f_cubic_R_positive_near_zero t ltac:(lra)). lra. }
    apply (unique_root_increasing (-3) (-1)); auto.
    intros x y _ Hxy Hy. now apply f_cubic_R_increasing_left.
  - destruct (IVT_cor f_cubic_R 0 1 f_cubic_R_continuous) as [z [Hz E]];
      [lra|unfold f_cubic_R; lra|].
    exists z. split; [split; assumption|].
    intros z' [Hz' E'].
    apply (unique_root_decreasing 0 1); auto.
    intros x y Hx Hxy Hy. now apply f_cubic_R_decreasing_middle.
  - destruct (IVT_cor f_cubic_R 1 3 f_cubic_R_continuous) as [z [Hz E]];
      [lra|unfold f_cubic_R; lra|].
    exists z. split; [split; assumption|].
    intros z' [Hz' E'].
    apply (unique_root_increasing 1 3); auto.
    intros x y Hx Hxy _. now apply f_cubic_R_increasing_right.
Qed.

End RealRoots.
